(** * SOS-Community gateway: the cache-aside proxy of [main.py]

    A shallow embedding of the request path of the community node
    ([paginate_data], [forward_request], [update_cache_from_origin],
    [proxy_request], the listing endpoints and [list_proxies] of
    [main.py], the parameter types of [models.py], the Redis client of
    [database.py]), and the properties of that code.

    Python values are modelled as follows.
    - [str] is a list of Unicode code points ([pystr]); [bytes] is a list
      of [byte]; [int] is [Z], and [//] is [Z.div] (both round towards
      minus infinity).
    - A raised exception is the [Raise] case of [result]; [try] with
      [except Exception] is a match on it.
    - The Redis store is a finite map from key to value.  The client is
      created with [decode_responses=True], so keys and values cross the
      boundary as [str].  Whether a store call raises is an input of the
      request ([Env]), as are the answer of the origin and the clock.
    - A request is a computation in a monad with the world [Env] to read
      and the state [State] to change: the store, the queue of
      background tasks and the trace of the calls to the outside.

    The library functions that the code calls are modelled after their
    implementation: the UTF-8 codec of [bytes.decode] and [str.encode],
    [json.dumps] and [json.loads] of CPython (on a [str], and on [bytes]
    with [detect_encoding] and the codecs it names), [Response.json] and
    [Response.text] of httpx, the constructor of [HTTPException],
    [Response.render] and [JSONResponse] of Starlette, the truth value of
    an object, the slice of a list.  What depends on the installation is
    an input: the table of status phrases of the interpreter ([Env]),
    the codec of a charset that an answer declares ([httpx_Response]). *)

From Stdlib Require Import ZArith NArith List Lia Bool.
From Stdlib.Strings Require Import String Ascii Byte.
From Stdlib Require Import DecimalZ DecimalN DecimalFacts.
From stdpp Require Import gmap strings list.

Local Open Scope N_scope.

(** ** Python [str] and [bytes] *)

Abbreviation pystr := (list N).
Abbreviation bytes := (list byte).

(** A literal of the source, as a [str]. *)
Definition lit (s : string) : pystr :=
  map N_of_ascii (list_ascii_of_string s).

(** The byte with a given value (values above 255 do not occur). *)
Definition byte_of (n : N) : byte :=
  match Byte.of_N n with Some b => b | None => x00 end.

(** A literal of the source, as [bytes]. *)
Definition blit (s : string) : bytes :=
  map byte_of_ascii (list_ascii_of_string s).

(** ** UTF-8: [bytes.decode("utf-8")] and [str.encode("utf-8")]

    The strict codec of CPython: shortest form only, no surrogates
    (U+D800..U+DFFF), nothing above U+10FFFF. *)

Definition is_cont (x : N) : bool := (0x80 <=? x) && (x <=? 0xBF).

Fixpoint utf8_decode (bs : bytes) : option pystr :=
  match bs with
  | [] => Some []
  | b0 :: r0 =>
    let x0 := Byte.to_N b0 in
    if x0 <? 0x80 then cons x0 <$> utf8_decode r0
    else if x0 <? 0xC2 then None
    else if x0 <? 0xE0 then
      match r0 with
      | b1 :: r1 =>
        let x1 := Byte.to_N b1 in
        if is_cont x1
        then cons ((x0 - 0xC0) * 64 + (x1 - 0x80)) <$> utf8_decode r1
        else None
      | _ => None
      end
    else if x0 <? 0xF0 then
      match r0 with
      | b1 :: b2 :: r2 =>
        let x1 := Byte.to_N b1 in
        let x2 := Byte.to_N b2 in
        if is_cont x1 && is_cont x2
           && negb ((x0 =? 0xE0) && (x1 <? 0xA0))
           && negb ((x0 =? 0xED) && (0xA0 <=? x1))
        then cons ((x0 - 0xE0) * 4096 + (x1 - 0x80) * 64 + (x2 - 0x80))
               <$> utf8_decode r2
        else None
      | _ => None
      end
    else if x0 <? 0xF5 then
      match r0 with
      | b1 :: b2 :: b3 :: r3 =>
        let x1 := Byte.to_N b1 in
        let x2 := Byte.to_N b2 in
        let x3 := Byte.to_N b3 in
        if is_cont x1 && is_cont x2 && is_cont x3
           && negb ((x0 =? 0xF0) && (x1 <? 0x90))
           && negb ((x0 =? 0xF4) && (0x90 <=? x1))
        then cons ((x0 - 0xF0) * 262144 + (x1 - 0x80) * 4096
                   + (x2 - 0x80) * 64 + (x3 - 0x80))
               <$> utf8_decode r3
        else None
      | _ => None
      end
    else None
  end.

Definition is_surrogate (c : N) : bool := (0xD800 <=? c) && (c <=? 0xDFFF).

Definition utf8_encode_cp (c : N) : option bytes :=
  if c <? 0x80 then Some [byte_of c]
  else if c <? 0x800 then
    Some [byte_of (0xC0 + c / 64); byte_of (0x80 + c mod 64)]
  else if c <? 0x10000 then
    if is_surrogate c then None
    else Some [byte_of (0xE0 + c / 4096); byte_of (0x80 + (c / 64) mod 64);
               byte_of (0x80 + c mod 64)]
  else if c <? 0x110000 then
    Some [byte_of (0xF0 + c / 262144); byte_of (0x80 + (c / 4096) mod 64);
          byte_of (0x80 + (c / 64) mod 64); byte_of (0x80 + c mod 64)]
  else None.

Fixpoint utf8_encode (s : pystr) : option bytes :=
  match s with
  | [] => Some []
  | c :: r =>
    match utf8_encode_cp c, utf8_encode r with
    | Some bc, Some br => Some (bc ++ br)
    | _, _ => None
    end
  end.

(** A Unicode scalar value: a code point that is not a surrogate. *)
Definition is_scalar (c : N) : bool := (c <? 0x110000) && negb (is_surrogate c).

(** ** JSON values

    What [json.loads] returns.  A [dict] keeps its keys in insertion
    order and holds each key once.  A [float] is kept as the text of its
    literal ([repr] of a float that was parsed gives a literal of the same
    value); rounding to binary64 plays no role in this program. *)

#[local] Set Warnings "-register-all".
Inductive json : Type :=
| JNull
| JBool (b : bool)
| JInt (z : Z)
| JFloat (literal : pystr)
| JStr (s : pystr)
| JArr (items : list json)
| JObj (d : list (pystr * json)).

Abbreviation pydict := (list (pystr * json)).

(** [k in d], [d.get(k)] and [d[k] = v]. *)
Fixpoint dict_get (d : pydict) (k : pystr) : option json :=
  match d with
  | [] => None
  | (k', v) :: d' => if decide (k' = k) then Some v else dict_get d' k
  end.

Fixpoint dict_set (d : pydict) (k : pystr) (v : json) : pydict :=
  match d with
  | [] => [(k, v)]
  | (k', v') :: d' =>
    if decide (k' = k) then (k, v) :: d' else (k', v') :: dict_set d' k v
  end.

(** ** [json.dumps] (defaults: [ensure_ascii=True], separators [", "]
    and [": "]) *)

Definition hex_digit (d : N) : N := if d <? 10 then 48 + d else 87 + d.

Definition hex4 (n : N) : pystr :=
  [hex_digit (n / 4096 mod 16); hex_digit (n / 256 mod 16);
   hex_digit (n / 16 mod 16); hex_digit (n mod 16)].

(** One character of [encode_basestring_ascii]. *)
Definition escape_char (c : N) : pystr :=
  if c =? 34 then [92; 34]
  else if c =? 92 then [92; 92]
  else if c =? 10 then [92; 110]
  else if c =? 13 then [92; 114]
  else if c =? 9 then [92; 116]
  else if c =? 12 then [92; 102]
  else if c =? 8 then [92; 98]
  else if (32 <=? c) && (c <=? 126) then [c]
  else if c <? 0x10000 then [92; 117] ++ hex4 c
  else
    let n := c - 0x10000 in
    [92; 117] ++ hex4 (0xD800 + (n / 1024) mod 1024)
    ++ [92; 117] ++ hex4 (0xDC00 + n mod 1024).

Definition escape (s : pystr) : pystr := flat_map escape_char s.

Definition quote (s : pystr) : pystr := [34] ++ escape s ++ [34].

Fixpoint uint_digits (u : Decimal.uint) : pystr :=
  match u with
  | Decimal.Nil => []
  | Decimal.D0 u => 48 :: uint_digits u
  | Decimal.D1 u => 49 :: uint_digits u
  | Decimal.D2 u => 50 :: uint_digits u
  | Decimal.D3 u => 51 :: uint_digits u
  | Decimal.D4 u => 52 :: uint_digits u
  | Decimal.D5 u => 53 :: uint_digits u
  | Decimal.D6 u => 54 :: uint_digits u
  | Decimal.D7 u => 55 :: uint_digits u
  | Decimal.D8 u => 56 :: uint_digits u
  | Decimal.D9 u => 57 :: uint_digits u
  end.

(** [str(z)] for an [int]: its decimal digits, after a minus sign when it
    is negative. *)
Definition str_int (z : Z) : pystr :=
  match Z.to_int z with
  | Decimal.Pos u => uint_digits u
  | Decimal.Neg u => 45 :: uint_digits u
  end.

(** [repr] of the [float] that [time.time()] returns: the seconds, a dot
    and the digits of the fraction (at least one). *)
Record timestamp : Type := { ts_secs : N; ts_frac : list N }.

Definition frac_digits (l : list N) : pystr :=
  match l with
  | [] => [48]
  | _ => map (fun d => 48 + d mod 10) l
  end.

Definition float_repr (t : timestamp) : pystr :=
  uint_digits (N.to_uint (ts_secs t)) ++ [46] ++ frac_digits (ts_frac t).

Fixpoint join (sep : pystr) (parts : list pystr) : pystr :=
  match parts with
  | [] => []
  | [p] => p
  | p :: ps => p ++ sep ++ join sep ps
  end.

Fixpoint json_dumps (v : json) : pystr :=
  match v with
  | JNull => lit "null"
  | JBool true => lit "true"
  | JBool false => lit "false"
  | JInt z => str_int z
  | JFloat l => l
  | JStr s => quote s
  | JArr items => [91] ++ join (lit ", ") (map json_dumps items) ++ [93]
  | JObj d =>
    [123]
    ++ join (lit ", ")
         (map (fun kv => quote (fst kv) ++ lit ": " ++ json_dumps (snd kv)) d)
    ++ [125]
  end.

(** ** [json.loads]

    The decoder of CPython's [json] package ([decoder.py], [scanner.py]),
    in strict mode.  The resource limits of the interpreter (recursion
    depth, the digit limit of [int]) are outside the model. *)

Definition is_ws (c : N) : bool :=
  (c =? 32) || (c =? 9) || (c =? 10) || (c =? 13).

Fixpoint skip_ws (s : pystr) : pystr :=
  match s with
  | c :: r => if is_ws c then skip_ws r else s
  | [] => []
  end.

Definition hex_value (c : N) : option N :=
  if (48 <=? c) && (c <=? 57) then Some (c - 48)
  else if (97 <=? c) && (c <=? 102) then Some (c - 87)
  else if (65 <=? c) && (c <=? 70) then Some (c - 55)
  else None.

Definition hex4_value (a b c d : N) : option N :=
  match hex_value a, hex_value b, hex_value c, hex_value d with
  | Some x, Some y, Some z, Some w => Some (x * 4096 + y * 256 + z * 16 + w)
  | _, _, _, _ => None
  end.

Definition is_high (u : N) : bool := (0xD800 <=? u) && (u <=? 0xDBFF).
Definition is_low (u : N) : bool := (0xDC00 <=? u) && (u <=? 0xDFFF).

(** The short escapes of [BACKSLASH]. *)
Definition unescape (e : N) : option N :=
  if e =? 34 then Some 34
  else if e =? 92 then Some 92
  else if e =? 47 then Some 47
  else if e =? 98 then Some 8
  else if e =? 102 then Some 12
  else if e =? 110 then Some 10
  else if e =? 114 then Some 13
  else if e =? 116 then Some 9
  else None.

Definition prepend (c : N) (r : option (pystr * pystr))
  : option (pystr * pystr) :=
  match r with
  | Some (s, rest) => Some (c :: s, rest)
  | None => None
  end.

(** [scanstring], entered after the opening quote: the string and what
    follows its closing quote. *)
Fixpoint scanstring (s : pystr) : option (pystr * pystr) :=
  match s with
  | [] => None
  | c :: r =>
    if c =? 34 then Some ([], r)
    else if c =? 92 then
      match r with
      | [] => None
      | e :: r1 =>
        if e =? 117 then
          match r1 with
          | h1 :: h2 :: h3 :: h4 :: r2 =>
            match hex4_value h1 h2 h3 h4 with
            | None => None
            | Some u =>
              if is_high u then
                match r2 with
                | b :: e' :: k1 :: k2 :: k3 :: k4 :: r3 =>
                  if (b =? 92) && (e' =? 117) then
                    match hex4_value k1 k2 k3 k4 with
                    | None => None
                    | Some u2 =>
                      if is_low u2
                      then prepend (0x10000 + (u - 0xD800) * 1024
                                    + (u2 - 0xDC00))
                             (scanstring r3)
                      else prepend u (scanstring r2)
                    end
                  else prepend u (scanstring r2)
                | _ => prepend u (scanstring r2)
                end
              else prepend u (scanstring r2)
            end
          | _ => None
          end
        else
          match unescape e with
          | Some c' => prepend c' (scanstring r1)
          | None => None
          end
      end
    else if c <? 32 then None
    else prepend c (scanstring r)
  end.

Definition is_digit (c : N) : bool := (48 <=? c) && (c <=? 57).

Fixpoint span_digits (s : pystr) : pystr * pystr :=
  match s with
  | c :: r =>
    if is_digit c
    then let '(ds, r') := span_digits r in (c :: ds, r')
    else ([], s)
  | [] => ([], [])
  end.

Definition digits_value (ds : pystr) : Z :=
  fold_left (fun acc c => (10 * acc + Z.of_N (c - 48))%Z) ds 0%Z.

(** The fraction of [NUMBER_RE] (a dot and at least one digit), if there
    is one. *)
Definition match_frac (s : pystr) : pystr * pystr :=
  match s with
  | c :: r =>
    if c =? 46 then
      match span_digits r with
      | ([], _) => ([], s)
      | (ds, r') => (c :: ds, r')
      end
    else ([], s)
  | [] => ([], [])
  end.

(** The exponent of [NUMBER_RE] ([e] or [E], an optional sign and at
    least one digit), if there is one. *)
Definition match_exp (s : pystr) : pystr * pystr :=
  match s with
  | c :: r =>
    if (c =? 101) || (c =? 69) then
      let '(sg, r1) :=
        match r with
        | g :: r' => if (g =? 43) || (g =? 45) then ([g], r') else ([], r)
        | [] => ([], r)
        end in
      match span_digits r1 with
      | ([], _) => ([], s)
      | (ds, r2) => (c :: sg ++ ds, r2)
      end
    else ([], s)
  | [] => ([], [])
  end.

(** [NUMBER_RE.match]: an optional minus sign, then [0] or a digit string
    without a leading zero, then an optional fraction and an optional
    exponent; the scanner makes a [float] of it when it has a fraction or
    an exponent and an [int] otherwise. *)
Definition match_number (s : pystr) : option (json * pystr) :=
  let '(neg, s1) :=
    match s with
    | c :: r => if c =? 45 then (true, r) else (false, s)
    | [] => (false, s)
    end in
  match s1 with
  | d :: r =>
    if is_digit d then
      let '(ds, r1) := if d =? 48 then ([], r) else span_digits r in
      let '(frac, r2) := match_frac r1 in
      let '(ex, r3) := match_exp r2 in
      match frac, ex with
      | [], [] =>
        let z := digits_value (d :: ds) in
        Some (JInt (if neg then - z else z)%Z, r3)
      | _, _ =>
        Some (JFloat ((if neg then [45] else []) ++ d :: ds ++ frac ++ ex), r3)
      end
    else None
  | [] => None
  end.

Fixpoint strip_prefix (p s : pystr) : option pystr :=
  match p, s with
  | [], _ => Some s
  | a :: p', b :: s' => if a =? b then strip_prefix p' s' else None
  | _ :: _, [] => None
  end.

(** The constants that the scanner tries when no number matches. *)
Definition match_constant (s : pystr) : option (json * pystr) :=
  match strip_prefix (lit "NaN") s with
  | Some r => Some (JFloat (lit "NaN"), r)
  | None =>
    match strip_prefix (lit "Infinity") s with
    | Some r => Some (JFloat (lit "Infinity"), r)
    | None =>
      match strip_prefix (lit "-Infinity") s with
      | Some r => Some (JFloat (lit "-Infinity"), r)
      | None => None
      end
    end
  end.

(** [scan_once], [JSONObject] and [JSONArray].  [fuel] bounds the number
    of nested calls; [object_members] is entered after the opening quote
    of a key, [array_elements] at the start of an element. *)
Fixpoint scan_once (fuel : nat) (s : pystr) : option (json * pystr) :=
  match fuel with
  | O => None
  | S f =>
    match s with
    | [] => None
    | c :: r =>
      if c =? 34 then
        match scanstring r with
        | Some (str, r') => Some (JStr str, r')
        | None => None
        end
      else if c =? 123 then
        match skip_ws r with
        | q :: r' =>
          if q =? 125 then Some (JObj [], r')
          else if q =? 34 then object_members f [] r'
          else None
        | [] => None
        end
      else if c =? 91 then
        match skip_ws r with
        | q :: r' =>
          if q =? 93 then Some (JArr [], r')
          else array_elements f [] (q :: r')
        | [] => None
        end
      else
        match strip_prefix (lit "null") s with
        | Some r' => Some (JNull, r')
        | None =>
          match strip_prefix (lit "true") s with
          | Some r' => Some (JBool true, r')
          | None =>
            match strip_prefix (lit "false") s with
            | Some r' => Some (JBool false, r')
            | None =>
              match match_number s with
              | Some x => Some x
              | None => match_constant s
              end
            end
          end
        end
    end
  end
with object_members (fuel : nat) (d : pydict) (s : pystr)
  : option (json * pystr) :=
  match fuel with
  | O => None
  | S f =>
    match scanstring s with
    | None => None
    | Some (key, r) =>
      match skip_ws r with
      | c :: r1 =>
        if c =? 58 then
          match scan_once f (skip_ws r1) with
          | None => None
          | Some (v, r2) =>
            match skip_ws r2 with
            | c2 :: r3 =>
              if c2 =? 125 then Some (JObj (dict_set d key v), r3)
              else if c2 =? 44 then
                match skip_ws r3 with
                | q :: r4 =>
                  if q =? 34 then object_members f (dict_set d key v) r4
                  else None
                | [] => None
                end
              else None
            | [] => None
            end
          end
        else None
      | [] => None
      end
    end
  end
with array_elements (fuel : nat) (acc : list json) (s : pystr)
  : option (json * pystr) :=
  match fuel with
  | O => None
  | S f =>
    match scan_once f s with
    | None => None
    | Some (v, r) =>
      match skip_ws r with
      | c :: r1 =>
        if c =? 93 then Some (JArr (rev (v :: acc)), r1)
        else if c =? 44 then array_elements f (v :: acc) (skip_ws r1)
        else None
      | [] => None
      end
    end
  end.

(** [json.loads(s)] for a [str]: [None] stands for the exception that
    the decoder raises ([JSONDecodeError]). *)
Definition json_loads (s : pystr) : option json :=
  match s with
  | c :: _ => if c =? 0xFEFF then None else
    match scan_once (2 + 2 * length s) (skip_ws s) with
    | Some (v, r) => match skip_ws r with [] => Some v | _ => None end
    | None => None
    end
  | [] => None
  end.


(** [bytes.decode("utf-8", errors="replace")], which is how httpx builds
    [Response.text] when the origin declares no other charset: each
    ill-formed sequence becomes one U+FFFD. *)
Fixpoint utf8_decode_replace (bs : bytes) : pystr :=
  match bs with
  | [] => []
  | b0 :: r0 =>
    let x0 := Byte.to_N b0 in
    if x0 <? 0x80 then x0 :: utf8_decode_replace r0
    else if x0 <? 0xC2 then 0xFFFD :: utf8_decode_replace r0
    else if x0 <? 0xE0 then
      match r0 with
      | [] => [0xFFFD]
      | b1 :: r1 =>
        let x1 := Byte.to_N b1 in
        if is_cont x1
        then ((x0 - 0xC0) * 64 + (x1 - 0x80)) :: utf8_decode_replace r1
        else 0xFFFD :: utf8_decode_replace r0
      end
    else if x0 <? 0xF0 then
      match r0 with
      | [] => [0xFFFD]
      | b1 :: r1 =>
        let x1 := Byte.to_N b1 in
        if is_cont x1
           && negb ((x0 =? 0xE0) && (x1 <? 0xA0))
           && negb ((x0 =? 0xED) && (0xA0 <=? x1))
        then
          match r1 with
          | [] => [0xFFFD]
          | b2 :: r2 =>
            let x2 := Byte.to_N b2 in
            if is_cont x2
            then ((x0 - 0xE0) * 4096 + (x1 - 0x80) * 64 + (x2 - 0x80))
                 :: utf8_decode_replace r2
            else 0xFFFD :: utf8_decode_replace r1
          end
        else 0xFFFD :: utf8_decode_replace r0
      end
    else if x0 <? 0xF5 then
      match r0 with
      | [] => [0xFFFD]
      | b1 :: r1 =>
        let x1 := Byte.to_N b1 in
        if is_cont x1
           && negb ((x0 =? 0xF0) && (x1 <? 0x90))
           && negb ((x0 =? 0xF4) && (0x90 <=? x1))
        then
          match r1 with
          | [] => [0xFFFD]
          | b2 :: r2 =>
            let x2 := Byte.to_N b2 in
            if is_cont x2 then
              match r2 with
              | [] => [0xFFFD]
              | b3 :: r3 =>
                let x3 := Byte.to_N b3 in
                if is_cont x3
                then ((x0 - 0xF0) * 262144 + (x1 - 0x80) * 4096
                      + (x2 - 0x80) * 64 + (x3 - 0x80))
                     :: utf8_decode_replace r3
                else 0xFFFD :: utf8_decode_replace r2
              end
            else 0xFFFD :: utf8_decode_replace r1
          end
        else 0xFFFD :: utf8_decode_replace r0
      end
    else 0xFFFD :: utf8_decode_replace r0
  end.

(** ** Truth value of a Python object ([if x:]) *)

Definition is_exp_mark (c : N) : bool := (c =? 101) || (c =? 69).

Fixpoint before_exp (l : pystr) : pystr :=
  match l with
  | c :: r => if is_exp_mark c then [] else c :: before_exp r
  | [] => []
  end.

Fixpoint after (mark : N -> bool) (l : pystr) : pystr :=
  match l with
  | c :: r => if mark c then r else after mark r
  | [] => []
  end.

(** A [float] is false when it is zero.  The literal [m * 10^e] denotes
    the float zero when [m] is zero or when it is at most [2^-1075], half
    of the least positive float. *)
Definition float_truthy (l : pystr) : bool :=
  match List.filter is_digit l with
  | [] => true
  | _ =>
    let mant := before_exp l in
    let m := digits_value (List.filter is_digit mant) in
    let fl := Z.of_nat (length (List.filter is_digit (after (N.eqb 46) mant))) in
    let ex := after is_exp_mark l in
    let ev := digits_value (List.filter is_digit ex) in
    let e := ((if existsb (N.eqb 45) ex then - ev else ev) - fl)%Z in
    if (m =? 0)%Z then false
    else if (0 <=? e)%Z then true
    else (10 ^ (- e) <? m * 2 ^ 1075)%Z
  end.

Definition truthy (v : json) : bool :=
  match v with
  | JNull => false
  | JBool b => b
  | JInt z => negb (z =? 0)%Z
  | JFloat l => float_truthy l
  | JStr s => match s with [] => false | _ => true end
  | JArr l => match l with [] => false | _ => true end
  | JObj d => match d with [] => false | _ => true end
  end.

(** ** Exceptions and results *)

Inductive exn : Type :=
| HTTPException (status_code : Z) (detail : json)
| RequestError (msg : pystr)
| RequestValidationError
| ValueError
| JSONDecodeError
| UnicodeDecodeError
| UnicodeEncodeError
| AttributeError
| ZeroDivisionError
| RedisError (msg : pystr).

Inductive result (A : Type) : Type :=
| Return (a : A)
| Raise (e : exn).
Arguments Return {A} a.
Arguments Raise {A} e.

(** ** [paginate_data] *)

(** The index that a slice bound denotes in a list of length [len]. *)
Definition slice_index (len i : Z) : Z :=
  if (i <? 0)%Z then Z.max (i + len) 0 else Z.min i len.

(** [l[start:stop]]. *)
Definition py_slice {A : Type} (l : list A) (start stop : Z) : list A :=
  let len := Z.of_nat (length l) in
  let lo := slice_index len start in
  let hi := slice_index len stop in
  firstn (Z.to_nat (hi - lo)) (skipn (Z.to_nat lo) l).

(** The [dict] that [paginate_data] returns. *)
Record Page (A : Type) : Type := {
  data : list A;
  total : Z;
  page : Z;
  limit : Z;
  total_pages : Z
}.
Arguments data {A} p.
Arguments total {A} p.
Arguments page {A} p.
Arguments limit {A} p.
Arguments total_pages {A} p.

Definition paginate_data {A : Type} (items : list A) (page limit : Z)
  : result (Page A) :=
  let total := Z.of_nat (length items) in
  let start := ((page - 1) * limit)%Z in
  let end_ := (start + limit)%Z in
  if (limit =? 0)%Z then Raise ZeroDivisionError
  else Return {| data := py_slice items start end_;
                 total := total;
                 page := page;
                 limit := limit;
                 total_pages := ((total + limit - 1) / limit)%Z |}.

Definition Page_json (p : Page json) : json :=
  JObj [(lit "data", JArr (data p)); (lit "total", JInt (total p));
        (lit "page", JInt (page p)); (lit "limit", JInt (limit p));
        (lit "total_pages", JInt (total_pages p))].

(** ** The world of a request *)

(** ** [json.loads] on [bytes]

    [json.loads(b)] decodes [b] with the codec that [detect_encoding]
    names and the error handler [surrogatepass], and parses the text. *)

(** [bytes.decode("utf-8", "surrogatepass")]: the strict codec, except
    that the three bytes of a surrogate (ED, A0..BF, 80..BF) are taken
    for the surrogate. *)
Fixpoint utf8_decode_surrogatepass (bs : bytes) : option pystr :=
  match bs with
  | [] => Some []
  | b0 :: r0 =>
    let x0 := Byte.to_N b0 in
    if x0 <? 0x80 then cons x0 <$> utf8_decode_surrogatepass r0
    else if x0 <? 0xC2 then None
    else if x0 <? 0xE0 then
      match r0 with
      | b1 :: r1 =>
        let x1 := Byte.to_N b1 in
        if is_cont x1
        then cons ((x0 - 0xC0) * 64 + (x1 - 0x80))
               <$> utf8_decode_surrogatepass r1
        else None
      | _ => None
      end
    else if x0 <? 0xF0 then
      match r0 with
      | b1 :: b2 :: r2 =>
        let x1 := Byte.to_N b1 in
        let x2 := Byte.to_N b2 in
        if is_cont x1 && is_cont x2
           && negb ((x0 =? 0xE0) && (x1 <? 0xA0))
        then cons ((x0 - 0xE0) * 4096 + (x1 - 0x80) * 64 + (x2 - 0x80))
               <$> utf8_decode_surrogatepass r2
        else None
      | _ => None
      end
    else if x0 <? 0xF5 then
      match r0 with
      | b1 :: b2 :: b3 :: r3 =>
        let x1 := Byte.to_N b1 in
        let x2 := Byte.to_N b2 in
        let x3 := Byte.to_N b3 in
        if is_cont x1 && is_cont x2 && is_cont x3
           && negb ((x0 =? 0xF0) && (x1 <? 0x90))
           && negb ((x0 =? 0xF4) && (0x90 <=? x1))
        then cons ((x0 - 0xF0) * 262144 + (x1 - 0x80) * 4096
                   + (x2 - 0x80) * 64 + (x3 - 0x80))
               <$> utf8_decode_surrogatepass r3
        else None
      | _ => None
      end
    else None
  end.

(** The 16-bit units of a UTF-16 text; a byte left over is an error
    (truncated data). *)
Fixpoint utf16_units (little_endian : bool) (bs : bytes) : option (list N) :=
  match bs with
  | [] => Some []
  | b0 :: b1 :: r =>
    let x0 := Byte.to_N b0 in
    let x1 := Byte.to_N b1 in
    cons (if little_endian then x1 * 256 + x0 else x0 * 256 + x1)
      <$> utf16_units little_endian r
  | [_] => None
  end.

(** A high surrogate followed by a low one is one code point; under
    [surrogatepass] any other surrogate stands for itself. *)
Fixpoint join_surrogates (units : list N) : pystr :=
  match units with
  | [] => []
  | u :: r =>
    match r with
    | u2 :: r2 =>
      if is_high u && is_low u2
      then (0x10000 + (u - 0xD800) * 1024 + (u2 - 0xDC00)) :: join_surrogates r2
      else u :: join_surrogates r
    | [] => [u]
    end
  end.

Definition utf16_decode (little_endian : bool) (bs : bytes) : option pystr :=
  join_surrogates <$> utf16_units little_endian bs.

(** UTF-32: four bytes a code point, which is below 0x110000; a
    surrogate passes. *)
Fixpoint utf32_decode (little_endian : bool) (bs : bytes) : option pystr :=
  match bs with
  | [] => Some []
  | b0 :: b1 :: b2 :: b3 :: r =>
    let x0 := Byte.to_N b0 in
    let x1 := Byte.to_N b1 in
    let x2 := Byte.to_N b2 in
    let x3 := Byte.to_N b3 in
    let c := if little_endian
             then ((x3 * 256 + x2) * 256 + x1) * 256 + x0
             else ((x0 * 256 + x1) * 256 + x2) * 256 + x3 in
    if c <? 0x110000 then cons c <$> utf32_decode little_endian r else None
  | _ => None
  end.

Inductive encoding : Type :=
| utf_8 | utf_8_sig | utf_16 | utf_16_be | utf_16_le
| utf_32 | utf_32_be | utf_32_le.

Fixpoint startswith (b prefix : bytes) : bool :=
  match prefix, b with
  | [], _ => true
  | p :: prefix', x :: b' => Byte.eqb p x && startswith b' prefix'
  | _ :: _, [] => false
  end.

Definition BOM_UTF8 : bytes := [xef; xbb; xbf].
Definition BOM_UTF16_BE : bytes := [xfe; xff].
Definition BOM_UTF16_LE : bytes := [xff; xfe].
Definition BOM_UTF32_BE : bytes := [x00; x00; xfe; xff].
Definition BOM_UTF32_LE : bytes := [xff; xfe; x00; x00].

(** [b[i]], zero when there is no such byte (the uses below are under a
    test of the length). *)
Definition byte_at (b : bytes) (i : nat) : N := Byte.to_N (nth i b x00).

(** [json.detect_encoding]. *)
Definition detect_encoding (b : bytes) : encoding :=
  if startswith b BOM_UTF32_BE || startswith b BOM_UTF32_LE then utf_32
  else if startswith b BOM_UTF16_BE || startswith b BOM_UTF16_LE then utf_16
  else if startswith b BOM_UTF8 then utf_8_sig
  else if (4 <=? length b)%nat then
    if byte_at b 0 =? 0 then
      if byte_at b 1 =? 0 then utf_32_be else utf_16_be
    else if byte_at b 1 =? 0 then
      if (byte_at b 2 =? 0) && (byte_at b 3 =? 0) then utf_32_le
      else utf_16_le
    else utf_8
  else if (length b =? 2)%nat then
    if byte_at b 0 =? 0 then utf_16_be
    else if byte_at b 1 =? 0 then utf_16_le
    else utf_8
  else utf_8.

(** [b.decode(enc, "surrogatepass")] for the codecs that
    [detect_encoding] names.  [utf-8-sig], [utf-16] and [utf-32] drop
    the byte order mark at the start; a [utf-16] or [utf-32] text
    without a mark, which would be read in the byte order of the
    machine, does not reach this function. *)
Definition decode_surrogatepass (enc : encoding) (b : bytes) : option pystr :=
  match enc with
  | utf_8 => utf8_decode_surrogatepass b
  | utf_8_sig =>
    utf8_decode_surrogatepass (if startswith b BOM_UTF8 then drop 3 b else b)
  | utf_16 =>
    if startswith b BOM_UTF16_LE then utf16_decode true (drop 2 b)
    else if startswith b BOM_UTF16_BE then utf16_decode false (drop 2 b)
    else utf16_decode true b
  | utf_16_be => utf16_decode false b
  | utf_16_le => utf16_decode true b
  | utf_32 =>
    if startswith b BOM_UTF32_LE then utf32_decode true (drop 4 b)
    else if startswith b BOM_UTF32_BE then utf32_decode false (drop 4 b)
    else utf32_decode true b
  | utf_32_be => utf32_decode false b
  | utf_32_le => utf32_decode true b
  end.

(** [json.loads(b)] for [bytes]: the error of the codec, or the
    outcome of the parser on the text.  The test for a byte order mark
    at the start of a [str] is not made on this path, where the parser
    refuses U+FEFF as it refuses every character that begins no value:
    the outcome is that of [json_loads]. *)
Definition json_loads_bytes (b : bytes) : result json :=
  match decode_surrogatepass (detect_encoding b) b with
  | None => Raise UnicodeDecodeError
  | Some s =>
    match json_loads s with
    | Some v => Return v
    | None => Raise JSONDecodeError
    end
  end.

(** What [client.get] returns: an [httpx.Response].  [text_decoder] is
    the codec under which httpx reads the body as text: [None] is UTF-8,
    which httpx takes when the [Content-Type] header declares no charset,
    or one that Python does not know, or UTF-8; [Some f] is the codec of
    the declared charset, as the function that decodes with
    [errors="replace"]. *)
Record httpx_Response : Type := {
  status_code : Z;
  content : bytes;
  content_type : pystr;
  text_decoder : option (bytes -> pystr)
}.

(** [resp.json()], which is [json.loads(resp.content)]. *)
Definition resp_json (resp : httpx_Response) : result json :=
  json_loads_bytes (content resp).

(** [resp.text]: empty for an empty body, else the body decoded with
    [errors="replace"] under the codec of the response. *)
Definition resp_text (resp : httpx_Response) : pystr :=
  match content resp with
  | [] => []
  | _ =>
    match text_decoder resp with
    | None => utf8_decode_replace (content resp)
    | Some decode_replace => decode_replace (content resp)
    end
  end.

(** The codec [latin-1] (ISO 8859-1), every byte its own code point. *)
Definition latin_1_decode (b : bytes) : pystr := map Byte.to_N b.

(** What a handler returns: a [Response] built by the handler, or a plain
    value that the framework serialises as JSON. *)
Inductive response : Type :=
| Response (content : bytes) (media_type : pystr)
| Value (v : json).

(** [Response(content=..., media_type=...)]: [Response.render] takes
    [None], [bytes] or a [str], which it encodes. *)
Definition Response_of (content : json) (media_type : pystr)
  : result response :=
  match content with
  | JNull => Return (Response [] media_type)
  | JStr s =>
    match utf8_encode s with
    | Some b => Return (Response b media_type)
    | None => Raise UnicodeEncodeError
    end
  | _ => Raise AttributeError
  end.

(** *** A plain value returned by a handler

    The framework answers with [JSONResponse(jsonable_encoder(v))], whose
    body is [json.dumps(v, ensure_ascii=False, allow_nan=False,
    separators=(",", ":")).encode("utf-8")]. *)





(** A refresh handed to [background_tasks.add_task]: the arguments of
    [update_cache_from_origin] ([json_data] is [None] on every path). *)
Record Task : Type := {
  task_key : pystr;
  task_method : pystr;
  task_path : pystr;
  task_page : option Z;
  task_limit : option Z
}.

Inductive log_line : Type :=
| RedisGetError (e : exn)
| CacheParseError (e : exn)
| RedisSetError (e : exn)
| BackgroundUpdateSuccess (key : pystr)
| BackgroundUpdateFailed (e : exn).

(** What a request does to the outside, in order. *)
Inductive event : Type :=
| EvRedisGet (key : pystr)
| EvRedisSet (key value : pystr)
| EvOriginGet (url : pystr)
| EvPrint (l : log_line).

(** What a request finds: the configured origin, whether the store
    answers, what the origin answers, the clock, and the table
    [http.HTTPStatus] of the interpreter: the phrase of a status, [None]
    for a status that the table does not have (the table has grown and
    some phrases have changed from one version of Python to the next). *)
Record Env : Type := {
  REGISTRY_URL : pystr;
  redis_get_error : option exn;
  redis_set_error : option exn;
  origin : result httpx_Response;
  clock : timestamp;
  HTTPStatus : Z -> option pystr
}.

(** What a request changes: the store, the queue of background tasks and
    the trace of outside calls. *)
Record State : Type := {
  store : gmap pystr pystr;
  tasks : list Task;
  trace : list event
}.

(** ** The monad of a request: reader of [Env], state [State], errors *)

Definition M (A : Type) : Type := Env -> State -> result A * State.

Definition ret {A : Type} (a : A) : M A := fun _ st => (Return a, st).

Definition raise {A : Type} (e : exn) : M A := fun _ st => (Raise e, st).

Definition bind {A B : Type} (m : M A) (k : A -> M B) : M B :=
  fun env st =>
    match m env st with
    | (Return a, st') => k a env st'
    | (Raise e, st') => (Raise e, st')
    end.

Definition lift {A : Type} (r : result A) : M A := fun _ st => (r, st).

(** [try: body; except Exception as e: handler]. *)
Definition try_except {A : Type} (body : M A) (handler : exn -> M A) : M A :=
  fun env st =>
    match body env st with
    | (Return a, st') => (Return a, st')
    | (Raise e, st') => handler e env st'
    end.

Declare Scope py_scope.
Delimit Scope py_scope with py.
Notation "x <- m ;; k" := (bind m (fun x => k))
  (at level 100, m at next level, k at level 200, right associativity)
  : py_scope.
Notation "m ;; k" := (bind m (fun _ => k))
  (at level 100, k at level 200, right associativity) : py_scope.
Local Open Scope py_scope.

Definition emit (e : event) (st : State) : State :=
  {| store := store st; tasks := tasks st; trace := trace st ++ [e] |}.

Definition set_store (m : gmap pystr pystr) (st : State) : State :=
  {| store := m; tasks := tasks st; trace := trace st |}.

Definition push_task (t : Task) (st : State) : State :=
  {| store := store st; tasks := tasks st ++ [t]; trace := trace st |}.

(** [await redis_client.get(key)]. *)
Definition redis_get (key : pystr) : M (option pystr) :=
  fun env st =>
    let st' := emit (EvRedisGet key) st in
    match redis_get_error env with
    | Some e => (Raise e, st')
    | None => (Return (store st !! key), st')
    end.

(** [await redis_client.set(key, value)]. *)
Definition redis_set (key value : pystr) : M unit :=
  fun env st =>
    let st' := emit (EvRedisSet key value) st in
    match redis_set_error env with
    | Some e => (Raise e, st')
    | None => (Return tt, set_store (<[key := value]> (store st')) st')
    end.

(** [await client.get(url)]. *)
Definition client_get (url : pystr) : M httpx_Response :=
  fun env st => (origin env, emit (EvOriginGet url) st).

Definition print (l : log_line) : M unit :=
  fun _ st => (Return tt, emit (EvPrint l) st).

Definition time_time : M timestamp := fun env st => (Return (clock env), st).

Definition registry_url : M pystr :=
  fun env st => (Return (REGISTRY_URL env), st).

(** [background_tasks.add_task(update_cache_from_origin, ...)]. *)
Definition add_task (t : Task) : M unit :=
  fun _ st => (Return tt, push_task t st).

(** [b.decode("utf-8")] and [json.loads(s)] as calls that may raise. *)
Definition decode (b : bytes) : result pystr :=
  match utf8_decode b with
  | Some s => Return s
  | None => Raise UnicodeDecodeError
  end.

Definition loads (s : pystr) : result json :=
  match json_loads s with
  | Some v => Return v
  | None => Raise JSONDecodeError
  end.

(** ** [forward_request] *)

Definition default_detail : pystr := lit "Error from upstream server".

(** The [error_detail] of a response with status 400 or more. *)
Definition error_detail (resp : httpx_Response) : json :=
  let from_json :=
    match resp_json resp with
    | Return (JObj d) =>
      Return (match dict_get d (lit "detail") with
              | Some v => v
              | None => JStr default_detail
              end)
    | Return _ => Raise AttributeError
    | Raise e => Raise e
    end in
  match from_json with
  | Return v => v
  | Raise _ =>
    match resp_text resp with
    | [] => JStr default_detail
    | t => JStr t
    end
  end.

(** What [raise HTTPException(status_code=..., detail=...)] raises.  The
    constructor replaces a [detail] of [None] by the phrase of the
    status, [http.HTTPStatus(status_code).phrase], and that lookup raises
    [ValueError] for a status that the table does not have. *)
Definition HTTPException_of (phrase : Z -> option pystr) (status_code : Z)
    (detail : json) : exn :=
  match detail with
  | JNull =>
    match phrase status_code with
    | Some p => HTTPException status_code (JStr p)
    | None => ValueError
    end
  | _ => HTTPException status_code detail
  end.

Definition raise_HTTPException {A : Type} (status_code : Z) (detail : json)
  : M A :=
  fun env st => (Raise (HTTPException_of (HTTPStatus env) status_code detail), st).

(** What [forward_request] returns: [resp.content] when [raw], else
    [resp.json()]. *)
Inductive forwarded : Type :=
| Raw (b : bytes)
| Parsed (v : json).

Definition forward_request (method path : pystr) (raw : bool) : M forwarded :=
  try_except
    (resp <- (if decide (method = lit "GET")
              then url <- registry_url ;; client_get (url ++ path)
              else raise_HTTPException 405 (JStr (lit "Method not allowed"))) ;;
     if (400 <=? status_code resp)%Z
     then raise_HTTPException (status_code resp) (error_detail resp)
     else if raw then ret (Raw (content resp))
     else v <- lift (resp_json resp) ;; ret (Parsed v))
    (fun exc =>
       match exc with
       | RequestError msg =>
         raise_HTTPException 503
           (JStr (lit "Upstream server unavailable: " ++ msg))
       | _ => raise exc
       end).

(** ** The cache entry *)

Definition cache_entry (payload : pystr) (now : timestamp) : json :=
  JObj [(lit "payload", JStr payload);
        (lit "is_raw", JBool true);
        (lit "timestamp", JFloat (float_repr now))].

(** ** [update_cache_from_origin] *)

Definition update_cache_from_origin (key method path : pystr)
    (page limit : option Z) : M unit :=
  try_except
    (url <- registry_url ;;
     if decide (method = lit "GET") then
       resp <- client_get (url ++ path) ;;
       if (status_code resp =? 200)%Z then
         data_str <- lift (decode (content resp)) ;;
         now <- time_time ;;
         redis_set key (json_dumps (cache_entry data_str now)) ;;
         print (BackgroundUpdateSuccess key)
       else ret tt
     else ret tt)
    (fun e => print (BackgroundUpdateFailed e)).

Definition run_task (t : Task) : M unit :=
  update_cache_from_origin (task_key t) (task_method t) (task_path t)
    (task_page t) (task_limit t).

(** ** [proxy_request] *)

Definition cache_key (method path : pystr) : pystr :=
  method ++ lit ":" ++ path.

(** What the handler answers from a parsed cached value; [None] never
    happens here, every branch returns. *)
Definition serve_cached (cached_obj : json) (page limit : option Z)
  : result response :=
  let legacy :=
    match cached_obj, page, limit with
    | JArr items, Some p, Some l =>
      match paginate_data items p l with
      | Return pg => Return (Value (Page_json pg))
      | Raise e => Raise e
      end
    | _, _, _ => Return (Value cached_obj)
    end in
  match cached_obj with
  | JObj d =>
    match dict_get d (lit "payload") with
    | Some data =>
      let is_raw :=
        match dict_get d (lit "is_raw") with
        | Some v => v
        | None => JBool false
        end in
      if truthy is_raw
      then Response_of data (lit "application/json")
      else Return (Value data)
    | None => legacy
    end
  | _ => legacy
  end.

Definition refresh (key method path : pystr) (page limit : option Z) : Task :=
  {| task_key := key; task_method := method; task_path := path;
     task_page := page; task_limit := limit |}.

(** The first part of [proxy_request], the lookup: [Some] is the
    response that the handler returns from the cache, [None] is falling
    through to the origin. *)
Definition cache_lookup (method path : pystr) (page limit : option Z)
  : M (option response) :=
  let key := cache_key method path in
  if decide (method = lit "GET") then
    try_except
      (cached <- redis_get key ;;
       match cached with
       | Some (c :: cs) =>
         add_task (refresh key method path page limit) ;;
         try_except
           (cached_obj <- lift (loads (c :: cs)) ;;
            r <- lift (serve_cached cached_obj page limit) ;;
            ret (Some r))
           (fun e => print (CacheParseError e) ;; ret None)
       | _ => ret None
       end)
      (fun e => print (RedisGetError e) ;; ret None)
  else ret None.

(** The second part of [proxy_request]: the origin fetch and the store. *)
Definition fetch_and_store (method path : pystr) : M response :=
  let key := cache_key method path in
  result_raw <- forward_request method path true ;;
  (if decide (method = lit "GET") then
     try_except
       (payload_str <-
          lift (match result_raw with
                | Raw b => decode b
                | Parsed _ => Raise AttributeError
                end) ;;
        now <- time_time ;;
        redis_set key (json_dumps (cache_entry payload_str now)))
       (fun e => print (RedisSetError e))
   else ret tt) ;;
  match result_raw with
  | Raw b => ret (Response b (lit "application/json"))
  | Parsed _ => raise AttributeError
  end.

Definition proxy_request (method path : pystr) (page limit : option Z)
  : M response :=
  served <- cache_lookup method path page limit ;;
  match served with
  | Some r => ret r
  | None => fetch_and_store method path
  end.

(** ** [models.py]: the parameter types *)

Definition vietnamese_letters : list N :=
  [224; 225; 7841; 7843; 227; 226; 7847; 7845; 7853; 7849; 7851; 259; 7857;
   7855; 7863; 7859; 7861; 232; 233; 7865; 7867; 7869; 234; 7873; 7871;
   7879; 7875; 7877; 236; 237; 7883; 7881; 297; 242; 243; 7885; 7887; 245;
   244; 7891; 7889; 7897; 7893; 7895; 417; 7901; 7899; 7907; 7903; 7905;
   249; 250; 7909; 7911; 361; 432; 7915; 7913; 7921; 7917; 7919; 7923; 253;
   7925; 7927; 7929; 273; 192; 193; 7840; 7842; 195; 194; 7846; 7844; 7852;
   7848; 7850; 258; 7856; 7854; 7862; 7858; 7860; 200; 201; 7864; 7866;
   7868; 202; 7872; 7870; 7878; 7874; 7876; 204; 205; 7882; 7880; 296; 210;
   211; 7884; 7886; 213; 212; 7890; 7888; 7896; 7892; 7894; 416; 7900;
   7898; 7906; 7902; 7904; 217; 218; 7908; 7910; 360; 431; 7914; 7912;
   7920; 7916; 7918; 7922; 221; 7924; 7926; 7928; 272].

(** The class [\s] of [re] on [str]. *)
Definition is_space (c : N) : bool :=
  ((9 <=? c) && (c <=? 13)) || ((28 <=? c) && (c <=? 32))
  || (c =? 0x85) || (c =? 0xA0) || (c =? 0x1680)
  || ((0x2000 <=? c) && (c <=? 0x200A))
  || (c =? 0x2028) || (c =? 0x2029) || (c =? 0x202F) || (c =? 0x205F)
  || (c =? 0x3000).

Definition safe_punctuation : list N :=
  [46; 44; 45; 63; 33; 58; 59; 39; 34; 40; 41; 91; 93; 123; 125; 64; 35; 36;
   37; 38; 42; 43; 61; 95; 47; 92].

(** One character of [SAFE_STRING_REGEX]. *)
Definition safe_char (c : N) : bool :=
  ((97 <=? c) && (c <=? 122)) || ((65 <=? c) && (c <=? 90))
  || ((48 <=? c) && (c <=? 57)) || is_space c
  || existsb (N.eqb c) safe_punctuation
  || existsb (N.eqb c) vietnamese_letters.

Definition validate_safe_chars (v : pystr) : result pystr :=
  match v with
  | [] => Return v
  | _ => if forallb safe_char v then Return v else Raise ValueError
  end.

(** A type with constraints is modelled by its validation: the value, or
    the error of a value that does not meet the constraints. *)

(** [SafeString = Annotated[str, AfterValidator(validate_safe_chars)]]. *)
Definition SafeString (v : pystr) : result pystr := validate_safe_chars v.

(** [PageNumber = Annotated[int, Field(ge=1)]]. *)
Definition PageNumber (v : Z) : result Z :=
  if (1 <=? v)%Z then Return v else Raise ValueError.

(** [PageLimit = Annotated[int, Field(ge=1, le=25)]]. *)
Definition PageLimit (v : Z) : result Z :=
  if (1 <=? v)%Z && (v <=? 25)%Z then Return v else Raise ValueError.

(** ** The endpoint [/api/requests] *)

(** [path += f"&name={value}"] under [if value:]. *)
Definition add_filter (path name : pystr) (value : option pystr) : pystr :=
  match value with
  | Some (c :: cs) => path ++ lit "&" ++ name ++ lit "=" ++ c :: cs
  | _ => path
  end.

Definition requests_path (page limit : Z) (status search region : option pystr)
    (sort_by order : pystr) : pystr :=
  let path := lit "/api/requests?page=" ++ str_int page
              ++ lit "&limit=" ++ str_int limit
              ++ lit "&sort_by=" ++ sort_by ++ lit "&order=" ++ order in
  let path := add_filter path (lit "status") status in
  let path := add_filter path (lit "search") search in
  let path := add_filter path (lit "region") region in
  path.

Definition get_requests (page limit : Z) (status search region : option pystr)
    (sort_by order : pystr) : M response :=
  let path := requests_path page limit status search region sort_by order in
  proxy_request (lit "GET") path (Some page) (Some limit).

(** The query string of a call, parameter by parameter; [None] is a
    parameter that the caller left out. *)
Record Query : Type := {
  q_page : option Z;
  q_limit : option Z;
  q_status : option pystr;
  q_search : option pystr;
  q_region : option pystr;
  q_sort_by : option pystr;
  q_order : option pystr
}.

(** How the framework fills a parameter [name: T = default]: a value of
    the query string is validated as a [T], and refused with a
    [RequestValidationError] (status 422) when it is not one; the default
    is taken as it is, without validation. *)
Definition param {A : Type} (T : A -> result A) (given : option A)
    (default : A) : result A :=
  match given with
  | Some v =>
    match T v with
    | Return v' => Return v'
    | Raise _ => Raise RequestValidationError
    end
  | None => Return default
  end.

(** The same for [name: Optional[T] = Query(None)]. *)
Definition optional_param {A : Type} (T : A -> result A) (given : option A)
  : result (option A) :=
  match given with
  | Some v =>
    match T v with
    | Return v' => Return (Some v')
    | Raise _ => Raise RequestValidationError
    end
  | None => Return None
  end.

(** [GET /api/requests] with the signature of [get_requests]:
    [page: PageNumber = 1], [limit: PageLimit = 50],
    [status], [search], [region]: [Optional[SafeString] = Query(None)],
    [sort_by: SafeString = "default"], [order: SafeString = "desc"]. *)
Definition api_requests (q : Query) : M response :=
  page <- lift (param PageNumber (q_page q) 1%Z) ;;
  limit <- lift (param PageLimit (q_limit q) 50%Z) ;;
  status <- lift (optional_param SafeString (q_status q)) ;;
  search <- lift (optional_param SafeString (q_search q)) ;;
  region <- lift (optional_param SafeString (q_region q)) ;;
  sort_by <- lift (param SafeString (q_sort_by q) (lit "default")) ;;
  order <- lift (param SafeString (q_order q) (lit "desc")) ;;
  get_requests page limit status search region sort_by order.

Definition empty_state : State := {| store := ∅; tasks := []; trace := [] |}.

(** What may follow a number for it to end there: anything but a digit,
    a dot, [e] or [E]. *)
Definition ends_number (rest : pystr) : bool :=
  match rest with
  | c :: _ => negb (is_digit c || (c =? 46) || (c =? 101) || (c =? 69))
  | [] => true
  end.


(** ** Query parameters and the cache key *)

(** A value without the separator [&]. *)
Definition amp_free (s : pystr) : bool := forallb (fun c => negb (c =? 38)) s.

Definition amp_free_opt (o : option pystr) : bool :=
  match o with
  | Some s => amp_free s
  | None => true
  end.

(** An optional filter as the endpoint sees it: an empty value counts
    as none. *)
Definition present (o : option pystr) : option pystr :=
  match o with
  | Some (c :: cs) => Some (c :: cs)
  | _ => None
  end.

(** What [add_filter] appends. *)
Definition filter_segment (name : pystr) (value : option pystr) : pystr :=
  match value with
  | Some (c :: cs) => lit "&" ++ name ++ lit "=" ++ c :: cs
  | _ => []
  end.

(** A text that is empty or begins with [&]. *)
Definition amp_tail (t : pystr) : Prop :=
  match t with
  | [] => True
  | c :: _ => c = 38
  end.

(** ** Example worlds *)

Definition registry : pystr := lit "http://127.0.0.1:8001".

Definition noon : timestamp := {| ts_secs := 1764590400; ts_frac := [2; 5] |}.

(** The table [http.HTTPStatus] of CPython 3.9 to 3.12, for the examples. *)
Definition HTTPStatus_table : list (Z * string) :=
  [(100, "Continue"); (101, "Switching Protocols"); (102, "Processing");
   (103, "Early Hints"); (200, "OK"); (201, "Created"); (202, "Accepted");
   (203, "Non-Authoritative Information"); (204, "No Content");
   (205, "Reset Content"); (206, "Partial Content"); (207, "Multi-Status");
   (208, "Already Reported"); (226, "IM Used"); (300, "Multiple Choices");
   (301, "Moved Permanently"); (302, "Found"); (303, "See Other");
   (304, "Not Modified"); (305, "Use Proxy"); (307, "Temporary Redirect");
   (308, "Permanent Redirect"); (400, "Bad Request"); (401, "Unauthorized");
   (402, "Payment Required"); (403, "Forbidden"); (404, "Not Found");
   (405, "Method Not Allowed"); (406, "Not Acceptable");
   (407, "Proxy Authentication Required"); (408, "Request Timeout");
   (409, "Conflict"); (410, "Gone"); (411, "Length Required");
   (412, "Precondition Failed"); (413, "Request Entity Too Large");
   (414, "Request-URI Too Long"); (415, "Unsupported Media Type");
   (416, "Requested Range Not Satisfiable"); (417, "Expectation Failed");
   (418, "I'm a Teapot"); (421, "Misdirected Request");
   (422, "Unprocessable Entity"); (423, "Locked"); (424, "Failed Dependency");
   (425, "Too Early"); (426, "Upgrade Required");
   (428, "Precondition Required"); (429, "Too Many Requests");
   (431, "Request Header Fields Too Large");
   (451, "Unavailable For Legal Reasons"); (500, "Internal Server Error");
   (501, "Not Implemented"); (502, "Bad Gateway");
   (503, "Service Unavailable"); (504, "Gateway Timeout");
   (505, "HTTP Version Not Supported"); (506, "Variant Also Negotiates");
   (507, "Insufficient Storage"); (508, "Loop Detected");
   (510, "Not Extended"); (511, "Network Authentication Required")]%Z.

Definition HTTPStatus_phrase (status : Z) : option pystr :=
  match List.find (fun entry => (fst entry =? status)%Z) HTTPStatus_table with
  | Some (_, phrase) => Some (lit phrase)
  | None => None
  end.

(** A world in which the store may fail and the origin answers or
    fails. *)
Definition world_of (get_error set_error : option exn)
    (answer : result httpx_Response) : Env :=
  {| REGISTRY_URL := registry; redis_get_error := get_error;
     redis_set_error := set_error; origin := answer; clock := noon;
     HTTPStatus := HTTPStatus_phrase |}.

(** A world in which the store answers and the origin answers [resp]. *)
Definition world (resp : httpx_Response) : Env :=
  world_of None None (Return resp).

(** An answer of the origin that declares no charset. *)
Definition answer (status : Z) (body : bytes) (ctype : string)
  : httpx_Response :=
  {| status_code := status; content := body; content_type := lit ctype;
     text_decoder := None |}.

(** The body [{"detail":"not found"}]. *)
Definition not_found_body : bytes :=
  blit "{" ++ [x22] ++ blit "detail" ++ [x22] ++ blit ":" ++ [x22]
  ++ blit "not found" ++ [x22] ++ blit "}".

Definition news_path : pystr := lit "/api/news?page=1&limit=10".

Definition state_with (key value : pystr) : State :=
  {| store := {[ key := value ]}; tasks := []; trace := [] |}.

Definition no_query : Query :=
  {| q_page := None; q_limit := None; q_status := None; q_search := None;
     q_region := None; q_sort_by := None; q_order := None |}.

(** ** The other listing endpoints: [get_news], [get_phones],
    [get_rescue_points] *)

Definition news_request_path (page limit : Z) (search : option pystr)
    (sort_by order : pystr) : pystr :=
  let path := lit "/api/news?page=" ++ str_int page
              ++ lit "&limit=" ++ str_int limit
              ++ lit "&sort_by=" ++ sort_by ++ lit "&order=" ++ order in
  let path := add_filter path (lit "search") search in
  path.

Definition get_news (page limit : Z) (search : option pystr)
    (sort_by order : pystr) : M response :=
  let path := news_request_path page limit search sort_by order in
  proxy_request (lit "GET") path (Some page) (Some limit).

Definition phones_request_path (page limit : Z) (search : option pystr)
    (sort_by order : pystr) : pystr :=
  let path := lit "/api/phones?page=" ++ str_int page
              ++ lit "&limit=" ++ str_int limit
              ++ lit "&sort_by=" ++ sort_by ++ lit "&order=" ++ order in
  let path := add_filter path (lit "search") search in
  path.

Definition get_phones (page limit : Z) (search : option pystr)
    (sort_by order : pystr) : M response :=
  let path := phones_request_path page limit search sort_by order in
  proxy_request (lit "GET") path (Some page) (Some limit).

Definition rescue_points_request_path (page limit : Z) (search : option pystr)
    (sort_by order : pystr) : pystr :=
  let path := lit "/api/rescue_points?page=" ++ str_int page
              ++ lit "&limit=" ++ str_int limit
              ++ lit "&sort_by=" ++ sort_by ++ lit "&order=" ++ order in
  let path := add_filter path (lit "search") search in
  path.

Definition get_rescue_points (page limit : Z) (search : option pystr)
    (sort_by order : pystr) : M response :=
  let path := rescue_points_request_path page limit search sort_by order in
  proxy_request (lit "GET") path (Some page) (Some limit).

(** ** [list_proxies]

    [registry_data] is what [redis_client.hgetall("registry")] answers:
    the fields of the hash with their values, in the order of the
    [dict], or the exception that the call raises. *)

(** The [for] loop over [registry_data.items()]: a value that
    [json.loads] reads is appended, any other is skipped. *)
Fixpoint registry_loop (items : list (pystr * pystr)) (proxies_list : list json)
  : list json :=
  match items with
  | [] => proxies_list
  | (url, json_str) :: rest =>
    match loads json_str with
    | Return data => registry_loop rest (proxies_list ++ [data])
    | Raise _ => registry_loop rest proxies_list
    end
  end.

Definition list_proxies (registry_data : result (list (pystr * pystr)))
    (include_unsafe : bool) : result json :=
  let proxies_list :=
    match registry_data with
    | Return items => registry_loop items []
    | Raise _ => []
    end in
  Return (JObj [(lit "proxies", JArr proxies_list)]).

(** ** Notions for the properties *)

(** The elements of a page, nothing if [paginate_data] raises. *)
Definition page_data {A : Type} (items : list A) (page limit : Z) : list A :=
  match paginate_data items page limit with
  | Return pg => data pg
  | Raise _ => []
  end.

(** A value of the store that is the serialisation of a cache entry. *)
Definition envelope (v : pystr) : Prop :=
  exists s now,
    Forall (fun c => is_scalar c = true) s
    /\ v = json_dumps (cache_entry s now).

(** A store that holds cache entries only. *)
Definition store_ok (m : gmap pystr pystr) : Prop :=
  forall k v, m !! k = Some v -> envelope v.

Definition is_origin_get (e : event) : bool :=
  match e with EvOriginGet _ => true | _ => false end.

Definition is_redis_get (e : event) : bool :=
  match e with EvRedisGet _ => true | _ => false end.

Definition is_redis_set (e : event) : bool :=
  match e with EvRedisSet _ _ => true | _ => false end.

Definition count (p : event -> bool) (l : list event) : nat :=
  length (List.filter p l).

(** What a node does, one thing after the other: it answers a GET or it
    runs a queued refresh, each in the world of its moment. *)
Inductive action : Type :=
| Get (path : pystr) (page limit : option Z)
| Refresh (t : Task).

Definition perform (a : action) (env : Env) (st : State) : State :=
  match a with
  | Get path page limit =>
    snd (proxy_request (lit "GET") path page limit env st)
  | Refresh t => snd (run_task t env st)
  end.

Fixpoint run (steps : list (action * Env)) (st : State) : State :=
  match steps with
  | [] => st
  | (a, env) :: rest => run rest (perform a env st)
  end.

(** The world [env] with a store whose read succeeds, and the state
    [st] without an entry for [key]: where a request on an empty cache
    runs. *)
Definition with_working_read (env : Env) : Env :=
  {| REGISTRY_URL := REGISTRY_URL env; redis_get_error := None;
     redis_set_error := redis_set_error env; origin := origin env;
     clock := clock env; HTTPStatus := HTTPStatus env |}.

Definition without_entry (key : pystr) (st : State) : State :=
  set_store (delete key (store st)) st.
(** ** The codec round trip *)

Lemma byte_of_to_N (b : byte) : byte_of (Byte.to_N b) = b.
Proof. unfold byte_of. now rewrite Byte.of_to_N. Qed.

Ltac bool_hyps :=
  repeat match goal with
  | H : _ && _ = true |- _ => apply andb_prop in H; destruct H
  | H : negb _ = true |- _ => apply negb_true_iff in H
  | H : _ && _ = false |- _ => apply andb_false_iff in H; destruct H
  | H : (_ <? _) = true |- _ => apply N.ltb_lt in H
  | H : (_ <? _) = false |- _ => apply N.ltb_ge in H
  | H : (_ <=? _) = true |- _ => apply N.leb_le in H
  | H : (_ <=? _) = false |- _ => apply N.leb_gt in H
  | H : (_ =? _) = true |- _ => apply N.eqb_eq in H
  | H : (_ =? _) = false |- _ => apply N.eqb_neq in H
  end.

Ltac arith := zify; Z.to_euclidean_division_equations; lia.

Ltac cp_range c lo hi :=
  unfold utf8_encode_cp, is_surrogate;
  repeat match goal with
  | |- context [c <? ?k] => destruct (N.ltb_spec c k); try lia
  | |- context [?k <=? c] => destruct (N.leb_spec k c); try lia
  | |- context [c <=? ?k] => destruct (N.leb_spec c k); try lia
  end; cbn [andb].

Lemma utf8_encode_cp_1 (x0 : N) :
  x0 < 0x80 -> utf8_encode_cp x0 = Some [byte_of x0].
Proof. intros H. unfold utf8_encode_cp. apply N.ltb_lt in H. now rewrite H. Qed.

Lemma utf8_encode_cp_2 (x0 x1 : N) :
  0xC2 <= x0 -> x0 < 0xE0 -> is_cont x1 = true ->
  utf8_encode_cp ((x0 - 0xC0) * 64 + (x1 - 0x80))
  = Some [byte_of x0; byte_of x1].
Proof.
  intros H0 H1 H2. unfold is_cont in H2. bool_hyps.
  set (c := (x0 - 0xC0) * 64 + (x1 - 0x80)).
  assert (Hc : 0x80 <= c < 0x800) by (subst c; lia).
  cp_range c 0 0.
  replace (0xC0 + c / 64) with x0 by (subst c; arith).
  replace (0x80 + c mod 64) with x1 by (subst c; arith).
  reflexivity.
Qed.

Lemma utf8_encode_cp_3 (x0 x1 x2 : N) :
  0xE0 <= x0 -> x0 < 0xF0 -> is_cont x1 = true -> is_cont x2 = true ->
  (x0 =? 0xE0) && (x1 <? 0xA0) = false ->
  (x0 =? 0xED) && (0xA0 <=? x1) = false ->
  utf8_encode_cp ((x0 - 0xE0) * 4096 + (x1 - 0x80) * 64 + (x2 - 0x80))
  = Some [byte_of x0; byte_of x1; byte_of x2].
Proof.
  intros H0 H1 H2 H3 H4 H5. unfold is_cont in H2, H3.
  set (c := (x0 - 0xE0) * 4096 + (x1 - 0x80) * 64 + (x2 - 0x80)).
  assert (Hc : 0x800 <= c < 0x10000 /\ (c < 0xD800 \/ 0xDFFF < c))
    by (bool_hyps; subst c; lia).
  assert (E0 : 0xE0 + c / 4096 = x0) by (bool_hyps; subst c; arith).
  assert (E1 : 0x80 + (c / 64) mod 64 = x1) by (bool_hyps; subst c; arith).
  assert (E2 : 0x80 + c mod 64 = x2) by (bool_hyps; subst c; arith).
  cp_range c 0 0; now rewrite E0, E1, E2.
Qed.

Lemma utf8_encode_cp_4 (x0 x1 x2 x3 : N) :
  0xF0 <= x0 -> x0 < 0xF5 ->
  is_cont x1 = true -> is_cont x2 = true -> is_cont x3 = true ->
  (x0 =? 0xF0) && (x1 <? 0x90) = false ->
  (x0 =? 0xF4) && (0x90 <=? x1) = false ->
  utf8_encode_cp ((x0 - 0xF0) * 262144 + (x1 - 0x80) * 4096
                  + (x2 - 0x80) * 64 + (x3 - 0x80))
  = Some [byte_of x0; byte_of x1; byte_of x2; byte_of x3].
Proof.
  intros H0 H1 H2 H3 H4 H5 H6. unfold is_cont in H2, H3, H4.
  set (c := (x0 - 0xF0) * 262144 + (x1 - 0x80) * 4096
            + (x2 - 0x80) * 64 + (x3 - 0x80)).
  assert (Hc : 0x10000 <= c < 0x110000) by (bool_hyps; subst c; lia).
  assert (E0 : 0xF0 + c / 262144 = x0) by (bool_hyps; subst c; arith).
  assert (E1 : 0x80 + (c / 4096) mod 64 = x1) by (bool_hyps; subst c; arith).
  assert (E2 : 0x80 + (c / 64) mod 64 = x2) by (bool_hyps; subst c; arith).
  assert (E3 : 0x80 + c mod 64 = x3) by (bool_hyps; subst c; arith).
  cp_range c 0 0; now rewrite E0, E1, E2, E3.
Qed.

(** Decoding yields scalar values only, and encoding them gives the bytes
    back: [b.decode("utf-8").encode("utf-8") == b]. *)
Lemma utf8_encode_decode (bs : bytes) (s : pystr) :
  utf8_decode bs = Some s -> utf8_encode s = Some bs.
Proof.
  remember (length bs) as n eqn:Hn. revert bs s Hn.
  induction n as [n IH] using lt_wf_ind. intros bs s Hn.
  destruct bs as [|b0 r0]; cbn [utf8_decode].
  { intros [= <-]. reflexivity. }
  cbv zeta.
  destruct (N.ltb_spec (Byte.to_N b0) 0x80) as [L1|L1].
  { destruct (utf8_decode r0) as [s0|] eqn:E; [|discriminate].
    intros [= <-]. cbn [utf8_encode].
    rewrite utf8_encode_cp_1 by assumption.
    rewrite (IH (length r0)) with (bs := r0) (s := s0); cbn in *; try lia; auto.
    now rewrite byte_of_to_N. }
  destruct (N.ltb_spec (Byte.to_N b0) 0xC2) as [L2|L2]; [discriminate|].
  destruct (N.ltb_spec (Byte.to_N b0) 0xE0) as [L3|L3].
  { destruct r0 as [|b1 r1]; [discriminate|].
    destruct (is_cont (Byte.to_N b1)) eqn:C1; [|discriminate].
    destruct (utf8_decode r1) as [s0|] eqn:E; [|discriminate].
    intros [= <-]. cbn [utf8_encode].
    rewrite utf8_encode_cp_2 by assumption.
    rewrite (IH (length r1)) with (bs := r1) (s := s0); cbn in *; try lia; auto.
    now rewrite !byte_of_to_N. }
  destruct (N.ltb_spec (Byte.to_N b0) 0xF0) as [L4|L4].
  { destruct r0 as [|b1 [|b2 r2]]; try discriminate.
    destruct (is_cont (Byte.to_N b1)) eqn:C1; [|discriminate].
    destruct (is_cont (Byte.to_N b2)) eqn:C2; [|discriminate].
    destruct ((Byte.to_N b0 =? 0xE0) && (Byte.to_N b1 <? 0xA0)) eqn:C3;
      [discriminate|].
    destruct ((Byte.to_N b0 =? 0xED) && (0xA0 <=? Byte.to_N b1)) eqn:C4;
      [discriminate|].
    cbn [andb negb].
    destruct (utf8_decode r2) as [s0|] eqn:E; [|discriminate].
    intros [= <-]. cbn [utf8_encode].
    rewrite utf8_encode_cp_3 by assumption.
    rewrite (IH (length r2)) with (bs := r2) (s := s0); cbn in *; try lia; auto.
    now rewrite !byte_of_to_N. }
  destruct (N.ltb_spec (Byte.to_N b0) 0xF5) as [L5|L5]; [|discriminate].
  destruct r0 as [|b1 [|b2 [|b3 r3]]]; try discriminate.
  destruct (is_cont (Byte.to_N b1)) eqn:C1; [|discriminate].
  destruct (is_cont (Byte.to_N b2)) eqn:C2; [|discriminate].
  destruct (is_cont (Byte.to_N b3)) eqn:C2'; [|discriminate].
  destruct ((Byte.to_N b0 =? 0xF0) && (Byte.to_N b1 <? 0x90)) eqn:C3;
    [discriminate|].
  destruct ((Byte.to_N b0 =? 0xF4) && (0x90 <=? Byte.to_N b1)) eqn:C4;
    [discriminate|].
  cbn [andb negb].
  destruct (utf8_decode r3) as [s0|] eqn:E; [|discriminate].
  intros [= <-]. cbn [utf8_encode].
  rewrite utf8_encode_cp_4 by assumption.
  rewrite (IH (length r3)) with (bs := r3) (s := s0); cbn in *; try lia; auto.
  now rewrite !byte_of_to_N.
Qed.

Lemma utf8_encode_cp_scalar (c : N) (bs : bytes) :
  utf8_encode_cp c = Some bs -> is_scalar c = true.
Proof.
  unfold utf8_encode_cp, is_scalar.
  destruct (N.ltb_spec c 0x80); [intros _|].
  { unfold is_surrogate. destruct (N.ltb_spec c 0x110000); [|lia].
    destruct (N.leb_spec 0xD800 c); [lia|reflexivity]. }
  destruct (N.ltb_spec c 0x800); [intros _|].
  { unfold is_surrogate. destruct (N.ltb_spec c 0x110000); [|lia].
    destruct (N.leb_spec 0xD800 c); [lia|reflexivity]. }
  destruct (N.ltb_spec c 0x10000).
  { destruct (is_surrogate c); [discriminate|intros _].
    destruct (N.ltb_spec c 0x110000); [reflexivity|lia]. }
  destruct (N.ltb_spec c 0x110000); [intros _|discriminate].
  unfold is_surrogate. destruct (N.leb_spec c 0xDFFF); [lia|].
  now rewrite andb_false_r.
Qed.

Lemma utf8_encode_scalar (s : pystr) (bs : bytes) :
  utf8_encode s = Some bs -> Forall (fun c => is_scalar c = true) s.
Proof.
  revert bs. induction s as [|c s IH]; intros bs H; [constructor|].
  cbn [utf8_encode] in H.
  destruct (utf8_encode_cp c) as [bc|] eqn:Ec; [|discriminate].
  destruct (utf8_encode s) as [br|] eqn:Es; [|discriminate].
  constructor; [now apply utf8_encode_cp_scalar with bc|now apply IH with br].
Qed.

(** [bytes.decode("utf-8")] never yields a surrogate. *)
Lemma utf8_decode_scalar (bs : bytes) (s : pystr) :
  utf8_decode bs = Some s -> Forall (fun c => is_scalar c = true) s.
Proof.
  intros H. apply utf8_encode_scalar with bs. now apply utf8_encode_decode.
Qed.

(** *** Strings: [scanstring] undoes [encode_basestring_ascii] *)

Lemma hex_value_hex_digit (d : N) :
  d < 16 -> hex_value (hex_digit d) = Some d.
Proof.
  intros H.
  assert (E : d = 0 \/ d = 1 \/ d = 2 \/ d = 3 \/ d = 4 \/ d = 5 \/ d = 6
              \/ d = 7 \/ d = 8 \/ d = 9 \/ d = 10 \/ d = 11 \/ d = 12
              \/ d = 13 \/ d = 14 \/ d = 15) by lia.
  repeat (destruct E as [->|E]; [reflexivity|]). now subst.
Qed.

Lemma hex4_value_hex4 (n : N) :
  n < 65536 ->
  hex4_value (hex_digit (n / 4096 mod 16)) (hex_digit (n / 256 mod 16))
             (hex_digit (n / 16 mod 16)) (hex_digit (n mod 16)) = Some n.
Proof.
  intros H. unfold hex4_value.
  rewrite !hex_value_hex_digit by (apply N.mod_lt; lia).
  f_equal. arith.
Qed.

Lemma scanstring_short (e c : N) (tail : pystr) :
  e <> 117 -> unescape e = Some c ->
  scanstring (92 :: e :: tail) = prepend c (scanstring tail).
Proof.
  intros He Hu. cbn [scanstring].
  change (92 =? 34) with false. change (92 =? 92) with true. cbv iota.
  apply N.eqb_neq in He. now rewrite He, Hu.
Qed.

Lemma scanstring_plain (c : N) (tail : pystr) :
  c <> 34 -> c <> 92 -> 32 <= c ->
  scanstring (c :: tail) = prepend c (scanstring tail).
Proof.
  intros H1 H2 H3. cbn [scanstring].
  apply N.eqb_neq in H1, H2. rewrite H1, H2.
  destruct (N.ltb_spec c 32); [lia|reflexivity].
Qed.

Lemma scanstring_u (h1 h2 h3 h4 u : N) (tail : pystr) :
  hex4_value h1 h2 h3 h4 = Some u -> is_high u = false ->
  scanstring (92 :: 117 :: h1 :: h2 :: h3 :: h4 :: tail)
  = prepend u (scanstring tail).
Proof.
  intros Hv Hh.
  change (scanstring (92 :: 117 :: h1 :: h2 :: h3 :: h4 :: tail))
    with (match hex4_value h1 h2 h3 h4 with
          | None => None
          | Some u =>
            if is_high u then
              match tail with
              | b :: e' :: k1 :: k2 :: k3 :: k4 :: r3 =>
                if (b =? 92) && (e' =? 117) then
                  match hex4_value k1 k2 k3 k4 with
                  | None => None
                  | Some u2 =>
                    if is_low u2
                    then prepend (0x10000 + (u - 0xD800) * 1024
                                  + (u2 - 0xDC00))
                           (scanstring r3)
                    else prepend u (scanstring tail)
                  end
                else prepend u (scanstring tail)
              | _ => prepend u (scanstring tail)
              end
            else prepend u (scanstring tail)
          end).
  now rewrite Hv, Hh.
Qed.

Lemma scanstring_pair (h1 h2 h3 h4 k1 k2 k3 k4 u u2 : N) (tail : pystr) :
  hex4_value h1 h2 h3 h4 = Some u -> is_high u = true ->
  hex4_value k1 k2 k3 k4 = Some u2 -> is_low u2 = true ->
  scanstring (92 :: 117 :: h1 :: h2 :: h3 :: h4
              :: 92 :: 117 :: k1 :: k2 :: k3 :: k4 :: tail)
  = prepend (0x10000 + (u - 0xD800) * 1024 + (u2 - 0xDC00)) (scanstring tail).
Proof.
  intros Hv Hh Hv2 Hl.
  change (scanstring (92 :: 117 :: h1 :: h2 :: h3 :: h4
                      :: 92 :: 117 :: k1 :: k2 :: k3 :: k4 :: tail))
    with (match hex4_value h1 h2 h3 h4 with
          | None => None
          | Some u =>
            if is_high u then
              match hex4_value k1 k2 k3 k4 with
              | None => None
              | Some u2 =>
                if is_low u2
                then prepend (0x10000 + (u - 0xD800) * 1024 + (u2 - 0xDC00))
                       (scanstring tail)
                else prepend u
                       (scanstring (92 :: 117 :: k1 :: k2 :: k3 :: k4 :: tail))
              end
            else prepend u
                   (scanstring (92 :: 117 :: k1 :: k2 :: k3 :: k4 :: tail))
          end).
  now rewrite Hv, Hh, Hv2, Hl.
Qed.

Lemma scanstring_escape_char (c : N) (tail : pystr) :
  is_scalar c = true ->
  scanstring (escape_char c ++ tail) = prepend c (scanstring tail).
Proof.
  intros Hs. unfold is_scalar, is_surrogate in Hs. unfold escape_char.
  destruct (N.eqb_spec c 34) as [->|N1]; [reflexivity|].
  destruct (N.eqb_spec c 92) as [->|N2]; [reflexivity|].
  destruct (N.eqb_spec c 10) as [->|N3]; [reflexivity|].
  destruct (N.eqb_spec c 13) as [->|N4]; [reflexivity|].
  destruct (N.eqb_spec c 9) as [->|N5]; [reflexivity|].
  destruct (N.eqb_spec c 12) as [->|N6]; [reflexivity|].
  destruct (N.eqb_spec c 8) as [->|N7]; [reflexivity|].
  destruct ((32 <=? c) && (c <=? 126)) eqn:Hp.
  { bool_hyps; now apply scanstring_plain. }
  destruct (N.ltb_spec c 0x10000) as [Hlt|Hge].
  { cbn [app]. apply scanstring_u; [now apply hex4_value_hex4|].
    unfold is_high. bool_hyps;
      try (destruct (N.leb_spec 0xD800 c); [|reflexivity]);
      try (destruct (N.leb_spec c 0xDBFF); [|reflexivity]); cbn; lia. }
  cbv zeta. unfold hex4. cbn [app].
  set (n := c - 0x10000).
  assert (Hn : n < 0x100000) by (subst n; bool_hyps; lia).
  set (hi := 0xD800 + (n / 1024) mod 1024).
  set (lo := 0xDC00 + n mod 1024).
  assert (Hhi : 0xD800 <= hi <= 0xDBFF) by (subst hi; arith).
  assert (Hlo : 0xDC00 <= lo <= 0xDFFF) by (subst lo; arith).
  rewrite (scanstring_pair _ _ _ _ _ _ _ _ hi lo).
  - f_equal. subst hi lo n. arith.
  - apply hex4_value_hex4. lia.
  - unfold is_high. destruct (N.leb_spec 0xD800 hi); [|lia].
    destruct (N.leb_spec hi 0xDBFF); [reflexivity|lia].
  - apply hex4_value_hex4. lia.
  - unfold is_low. destruct (N.leb_spec 0xDC00 lo); [|lia].
    destruct (N.leb_spec lo 0xDFFF); [reflexivity|lia].
Qed.

(** A string without surrogates is read back from its JSON literal. *)
Lemma scanstring_escape (s rest : pystr) :
  Forall (fun c => is_scalar c = true) s ->
  scanstring (escape s ++ 34 :: rest) = Some (s, rest).
Proof.
  induction 1 as [|c s Hc Hs IH]; [reflexivity|].
  unfold escape in *. cbn [flat_map]. rewrite <- app_assoc.
  rewrite scanstring_escape_char by assumption. now rewrite IH.
Qed.

(** *** Numbers: the literal of a clock reading *)

Lemma uint_digits_digit (u : Decimal.uint) :
  Forall (fun c => is_digit c = true) (uint_digits u).
Proof. induction u; cbn [uint_digits]; constructor; auto. Qed.

Lemma to_uint_unorm (n : N) : Decimal.unorm (N.to_uint n) = N.to_uint n.
Proof.
  rewrite <- (DecimalN.Unsigned.of_to n) at 2.
  now rewrite DecimalN.Unsigned.to_of.
Qed.

Lemma unorm_D0_nil (u : Decimal.uint) :
  Decimal.unorm (Decimal.D0 u) = Decimal.D0 u -> u = Decimal.Nil.
Proof.
  rewrite unorm_D0. intros H.
  destruct (Decimal.uint_eq_dec u Decimal.Nil) as [E|E]; [exact E|].
  pose proof (nb_digits_unorm u E) as L. rewrite H in L.
  cbn [Decimal.nb_digits] in L. lia.
Qed.

(** The digits of a natural number: at least one, all digits, and no
    leading zero except for zero itself. *)
Lemma to_uint_shape (n : N) :
  exists d ds, uint_digits (N.to_uint n) = d :: ds
    /\ is_digit d = true
    /\ Forall (fun c => is_digit c = true) ds
    /\ (d = 48 -> ds = []).
Proof.
  pose proof (to_uint_unorm n) as Hn.
  pose proof (uint_digits_digit (N.to_uint n)) as Hd.
  destruct (N.to_uint n) as [|u|u|u|u|u|u|u|u|u|u] eqn:E.
  { now destruct (unorm_nonnil Decimal.Nil). }
  { apply unorm_D0_nil in Hn. subst u. exists 48, []. repeat split; auto. }
  all: cbn [uint_digits] in *; inversion Hd; subst;
    eexists _, _; repeat split; eauto; discriminate.
Qed.

Lemma span_digits_app (ds rest : pystr) :
  Forall (fun c => is_digit c = true) ds ->
  match rest with c :: _ => is_digit c = false | [] => True end ->
  span_digits (ds ++ rest) = (ds, rest).
Proof.
  intros Hds Hr. induction Hds as [|c ds Hc _ IH]; cbn [app span_digits].
  - destruct rest as [|c r]; [reflexivity|]. cbn [span_digits]. now rewrite Hr.
  - now rewrite Hc, IH.
Qed.

Lemma frac_digits_shape (l : list N) :
  exists d ds, frac_digits l = d :: ds
    /\ Forall (fun c => is_digit c = true) (d :: ds).
Proof.
  assert (Hd : forall x, is_digit (48 + x mod 10) = true).
  { intros x. unfold is_digit.
    assert (H : x mod 10 < 10) by (apply N.mod_lt; lia).
    revert H. generalize (x mod 10). intros y H.
    destruct (N.leb_spec 48 (48 + y)); [|lia].
    destruct (N.leb_spec (48 + y) 57); [reflexivity|lia]. }
  destruct l as [|x l]; cbn [frac_digits map].
  - exists 48, []. split; [reflexivity|]. repeat constructor.
  - eexists _, _. split; [reflexivity|]. constructor; [apply Hd|].
    induction l; constructor; auto.
Qed.

Lemma match_number_float_repr (t : timestamp) (rest : pystr) :
  ends_number rest = true ->
  match_number (float_repr t ++ rest)
  = Some (JFloat (float_repr t), rest).
Proof.
  intros Hr. unfold float_repr.
  destruct (to_uint_shape (ts_secs t)) as (d & ds & -> & Hd & Hds & H0).
  destruct (frac_digits_shape (ts_frac t)) as (x & xs & -> & Hx).
  assert (Hr1 : match rest with c :: _ => is_digit c = false | [] => True end).
  { destruct rest as [|c r]; [exact I|]. cbn in Hr.
    destruct (is_digit c); [discriminate|reflexivity]. }
  assert (Hexp : match_exp rest = ([], rest)).
  { destruct rest as [|c r]; [reflexivity|]. cbn [ends_number] in Hr.
    unfold match_exp.
    destruct (c =? 101); [now rewrite !orb_true_r in Hr|].
    destruct (c =? 69); [now rewrite !orb_true_r in Hr|]. reflexivity. }
  assert (Hfrac : match_frac (46 :: (x :: xs) ++ rest) = (46 :: x :: xs, rest)).
  { unfold match_frac. change (46 =? 46) with true. cbv iota.
    now rewrite span_digits_app. }
  assert (Hd45 : (d =? 45) = false).
  { unfold is_digit in Hd. bool_hyps. apply N.eqb_neq. lia. }
  unfold match_number. cbn [app]. rewrite Hd45, Hd.
  replace (ds ++ [46] ++ x :: xs) with (ds ++ 46 :: x :: xs) by reflexivity.
  rewrite <- !app_assoc. cbn [app].
  destruct (N.eqb_spec d 48) as [E|E].
  - rewrite (H0 E). cbn [app].
    change (46 :: x :: xs ++ rest) with (46 :: (x :: xs) ++ rest).
    rewrite Hfrac, Hexp. now rewrite app_nil_r.
  - rewrite span_digits_app; [|assumption|reflexivity].
    change (46 :: x :: xs ++ rest) with (46 :: (x :: xs) ++ rest).
    rewrite Hfrac, Hexp. now rewrite app_nil_r.
Qed.

(** *** The cache entry is read back from its serialisation *)

Lemma json_dumps_cache_entry (s : pystr) (now : timestamp) :
  json_dumps (cache_entry s now)
  = 123 :: 34 :: lit "payload" ++ 34 :: 58 :: 32 :: 34 :: escape s
    ++ 34 :: 44 :: 32 :: 34 :: lit "is_raw" ++ 34 :: 58 :: 32
    :: lit "true" ++ 44 :: 32 :: 34 :: lit "timestamp" ++ 34 :: 58 :: 32
    :: float_repr now ++ [125].
Proof.
  unfold cache_entry. cbn [json_dumps map join fst snd]. unfold quote.
  change (escape (lit "payload")) with (lit "payload").
  change (escape (lit "is_raw")) with (lit "is_raw").
  change (escape (lit "timestamp")) with (lit "timestamp").
  change (lit ", ") with [44; 32]. change (lit ": ") with [58; 32].
  repeat (rewrite <- ?app_assoc; cbn [app]). reflexivity.
Qed.

Lemma lit_scalar (s : string) :
  Forall (fun c => is_scalar c = true) (lit s).
Proof.
  unfold lit. induction (list_ascii_of_string s) as [|a l IH];
    cbn [map]; constructor; [|exact IH].
  pose proof (N_ascii_bounded a) as H. unfold is_scalar, is_surrogate.
  destruct (N.ltb_spec (N_of_ascii a) 0x110000); [|lia].
  destruct (N.leb_spec 0xD800 (N_of_ascii a)); [lia|reflexivity].
Qed.

Lemma lit_escape (s : string) (rest : pystr) :
  escape (lit s) = lit s ->
  scanstring (lit s ++ 34 :: rest) = Some (lit s, rest).
Proof.
  intros E. rewrite <- E at 1. apply scanstring_escape, lit_scalar.
Qed.

Lemma scan_once_digit (f : nat) (d : N) (r : pystr) :
  is_digit d = true ->
  scan_once (S f) (d :: r) = match_number (d :: r).
Proof.
  intros Hd. assert (Hm : exists x, match_number (d :: r) = Some x).
  { unfold match_number.
    assert (E : (d =? 45) = false)
      by (unfold is_digit in Hd; bool_hyps; apply N.eqb_neq; lia).
    rewrite E, Hd.
    destruct (if d =? 48 then _ else _) as [ds r1].
    destruct (match_frac r1) as [fr r2]. destruct (match_exp r2) as [ex r3].
    destruct fr, ex; eauto. }
  destruct Hm as [x Hm]. unfold is_digit in Hd. bool_hyps.
  cbn [scan_once].
  destruct (N.eqb_spec d 34); [lia|]. destruct (N.eqb_spec d 123); [lia|].
  destruct (N.eqb_spec d 91); [lia|].
  change (lit "null") with [110; 117; 108; 108].
  change (lit "true") with [116; 114; 117; 101].
  change (lit "false") with [102; 97; 108; 115; 101].
  cbn [strip_prefix].
  destruct (N.eqb_spec 110 d); [lia|]. destruct (N.eqb_spec 116 d); [lia|].
  destruct (N.eqb_spec 102 d); [lia|]. now rewrite Hm.
Qed.

Lemma float_repr_head (t : timestamp) :
  exists d r, float_repr t = d :: r /\ is_digit d = true.
Proof.
  unfold float_repr.
  destruct (to_uint_shape (ts_secs t)) as (d & ds & -> & Hd & _).
  now exists d, (ds ++ [46] ++ frac_digits (ts_frac t)).
Qed.

Lemma scan_once_float_repr (f : nat) (t : timestamp) (rest : pystr) :
  ends_number rest = true ->
  scan_once (S f) (skip_ws (float_repr t ++ rest))
  = Some (JFloat (float_repr t), rest).
Proof.
  intros Hr. pose proof (match_number_float_repr t rest Hr) as Hm.
  destruct (float_repr_head t) as (d & r & E & Hd). rewrite E in *.
  cbn [app skip_ws] in *.
  assert (Hw : is_ws d = false).
  { unfold is_digit in Hd. unfold is_ws. bool_hyps.
    destruct (N.eqb_spec d 32); [lia|]. destruct (N.eqb_spec d 9); [lia|].
    destruct (N.eqb_spec d 10); [lia|]. destruct (N.eqb_spec d 13); [lia|].
    reflexivity. }
  rewrite Hw. now rewrite scan_once_digit.
Qed.

Lemma member_next (f : nat) (d : pydict) (k : string) (v : json)
    (r1 r4 : pystr) :
  escape (lit k) = lit k ->
  scan_once f (skip_ws r1) = Some (v, 44 :: 32 :: 34 :: r4) ->
  object_members (S f) d (lit k ++ 34 :: 58 :: r1)
  = object_members f (dict_set d (lit k) v) r4.
Proof.
  intros Hk Hv. cbn [object_members]. rewrite lit_escape by assumption.
  cbn [skip_ws]. change (is_ws 58) with false. cbv iota.
  change (58 =? 58) with true. cbv iota. rewrite Hv. reflexivity.
Qed.

Lemma member_last (f : nat) (d : pydict) (k : string) (v : json)
    (r1 rest : pystr) :
  escape (lit k) = lit k ->
  scan_once f (skip_ws r1) = Some (v, 125 :: rest) ->
  object_members (S f) d (lit k ++ 34 :: 58 :: r1)
  = Some (JObj (dict_set d (lit k) v), rest).
Proof.
  intros Hk Hv. cbn [object_members]. rewrite lit_escape by assumption.
  cbn [skip_ws]. change (is_ws 58) with false. cbv iota.
  change (58 =? 58) with true. cbv iota. rewrite Hv. reflexivity.
Qed.

Lemma scan_once_cache_entry (s : pystr) (now : timestamp) (f : nat)
    (rest : pystr) :
  Forall (fun c => is_scalar c = true) s ->
  scan_once (5 + f) (json_dumps (cache_entry s now) ++ rest)
  = Some (cache_entry s now, rest).
Proof.
  intros Hs. rewrite json_dumps_cache_entry.
  repeat (rewrite <- ?app_assoc; cbn [app]).
  change (5 + f)%nat with (S (S (S (S (S f))))).
  change (scan_once (S (S (S (S (S f))))) (123 :: 34 :: ?r))
    with (object_members (S (S (S (S f)))) [] r).
  etransitivity.
  { apply (member_next _ _ _ (JStr s)); [reflexivity|].
    change (skip_ws (32 :: 34 :: ?r)) with (34 :: r).
    change (scan_once (S (S (S f))) (34 :: ?r))
      with (match scanstring r with
            | Some (str, r') => Some (JStr str, r')
            | None => None
            end).
    rewrite scanstring_escape by assumption. reflexivity. }
  etransitivity.
  { apply (member_next _ _ _ (JBool true)); reflexivity. }
  rewrite (member_last _ _ _ (JFloat (float_repr now)) _ rest);
    [reflexivity|reflexivity|].
  change (skip_ws (32 :: ?r)) with (skip_ws r).
  now apply scan_once_float_repr.
Qed.

(** [json.loads(json.dumps(entry))] gives the entry back. *)
Lemma json_loads_cache_entry (s : pystr) (now : timestamp) :
  Forall (fun c => is_scalar c = true) s ->
  json_loads (json_dumps (cache_entry s now)) = Some (cache_entry s now).
Proof.
  intros Hs. unfold json_loads.
  pose proof (scan_once_cache_entry s now) as H.
  rewrite json_dumps_cache_entry in *.
  set (r := lit "payload" ++ _) in *.
  change (123 =? 0xFEFF) with false. cbv iota.
  change (skip_ws (123 :: 34 :: r)) with (123 :: 34 :: r).
  cbn [length].
  replace (2 + 2 * S (S (length r)))%nat
    with (5 + (1 + 2 * length r))%nat by lia.
  specialize (H (1 + 2 * length r)%nat [] Hs).
  rewrite app_nil_r in H. now rewrite H.
Qed.

(** *** The fuel of [json_loads] is enough

    Every call of the scanner consumes input, so [scan_once] with the
    fuel that [json_loads] gives it answers as it would with any larger
    fuel: a [None] of [json_loads] is a refusal of the text, never an
    exhausted fuel. *)

Lemma skip_ws_length (s : pystr) : (length (skip_ws s) <= length s)%nat.
Proof.
  induction s as [|c s IH]; cbn [skip_ws length]; [lia|].
  destruct (is_ws c); cbn [length]; lia.
Qed.

Lemma prepend_Some (c : N) (o : option (pystr * pystr)) (x r : pystr) :
  prepend c o = Some (x, r) -> exists x', o = Some (x', r).
Proof. destruct o as [[x' r']|]; cbn; [|discriminate]. intros [= _ <-]. eauto. Qed.

Lemma scanstring_length (s x r : pystr) :
  scanstring s = Some (x, r) -> (length r < length s)%nat.
Proof.
  remember (length s) as n eqn:Hn. revert s x r Hn.
  induction n as [n IH] using lt_wf_ind. intros s x r Hn H.
  assert (Rec : forall c s' x r,
             (length s' < n)%nat -> prepend c (scanstring s') = Some (x, r) ->
             (length r < n)%nat).
  { intros c s' x0 r0 Hl Hp. apply prepend_Some in Hp as [x' Hp].
    pose proof (IH _ Hl s' x' r0 eq_refl Hp). lia. }
  destruct s as [|c s]; [discriminate|]. cbn [scanstring] in H.
  cbn [length] in Hn.
  destruct (c =? 34). { injection H as _ <-. lia. }
  destruct (c =? 92).
  2: { destruct (c <? 32); [discriminate|]. eapply Rec; [|exact H]. lia. }
  destruct s as [|e s]; [discriminate|]. cbn [length] in Hn.
  destruct (e =? 117).
  2: { destruct (unescape e); [|discriminate]. eapply Rec; [|exact H]. lia. }
  destruct s as [|h1 [|h2 [|h3 [|h4 s]]]]; try discriminate.
  cbn [length] in Hn.
  destruct (hex4_value h1 h2 h3 h4) as [u|]; [|discriminate].
  destruct (is_high u).
  2: { eapply Rec; [|exact H]. lia. }
  destruct s as [|b [|e' [|k1 [|k2 [|k3 [|k4 s]]]]]];
    try (eapply Rec; [|exact H]; cbn [length]; lia).
  cbn [length] in Hn.
  destruct ((b =? 92) && (e' =? 117)).
  2: { eapply Rec; [|exact H]. cbn [length]. lia. }
  destruct (hex4_value k1 k2 k3 k4) as [u2|]; [|discriminate].
  destruct (is_low u2); (eapply Rec; [|exact H]); cbn [length]; lia.
Qed.

Lemma span_digits_length (s ds r : pystr) :
  span_digits s = (ds, r) -> (length r <= length s)%nat.
Proof.
  revert ds r. induction s as [|c s IH]; intros ds r; cbn [span_digits].
  - intros [= _ <-]. lia.
  - destruct (is_digit c).
    + destruct (span_digits s) as [ds' r'] eqn:E. intros [= _ <-].
      pose proof (IH _ _ eq_refl). cbn [length]. lia.
    + intros [= _ <-]. lia.
Qed.

Lemma match_frac_length (s fr r : pystr) :
  match_frac s = (fr, r) -> (length r <= length s)%nat.
Proof.
  unfold match_frac. destruct s as [|c s]; [intros [= _ <-]; lia|].
  destruct (c =? 46); [|intros [= _ <-]; lia].
  destruct (span_digits s) as [[|d ds] r'] eqn:E; intros [= _ <-]; [lia|].
  apply span_digits_length in E. cbn [length]. lia.
Qed.

Lemma match_exp_length (s ex r : pystr) :
  match_exp s = (ex, r) -> (length r <= length s)%nat.
Proof.
  unfold match_exp. destruct s as [|c s]; [intros [= _ <-]; lia|].
  destruct ((c =? 101) || (c =? 69)); [|intros [= _ <-]; lia].
  assert (L : forall sg r1,
             (length r1 <= length s)%nat ->
             match span_digits r1 with
             | ([], _) => ([], c :: s)
             | (ds, r2) => (c :: sg ++ ds, r2)
             end = (ex, r) -> (length r <= length (c :: s))%nat).
  { intros sg r1 Hl. destruct (span_digits r1) as [[|d ds] r2] eqn:E;
      intros [= _ <-]; [lia|]. apply span_digits_length in E.
    cbn [length]. lia. }
  destruct s as [|g s']; [apply (L [] []); cbn; lia|].
  destruct ((g =? 43) || (g =? 45)); [apply (L [g] s')|apply (L [] (g :: s'))];
    cbn [length]; lia.
Qed.

Lemma match_number_length (s : pystr) (v : json) (r : pystr) :
  match_number s = Some (v, r) -> (length r < length s)%nat.
Proof.
  unfold match_number.
  set (p := match s with
            | c :: r0 => if c =? 45 then (true, r0) else (false, s)
            | [] => (false, s)
            end).
  assert (Hp : (length (snd p) <= length s)%nat).
  { subst p. destruct s as [|c r0]; [cbn; lia|].
    destruct (c =? 45); cbn [snd length]; lia. }
  destruct p as [neg s1]. cbn [snd] in Hp.
  destruct s1 as [|d r0]; [discriminate|]. cbn [length] in Hp.
  destruct (is_digit d); [|discriminate].
  destruct (if d =? 48 then ([], r0) else span_digits r0) as [ds r1] eqn:E1.
  assert (H1 : (length r1 <= length r0)%nat).
  { destruct (d =? 48); [injection E1 as _ <-; lia|].
    now apply span_digits_length in E1. }
  destruct (match_frac r1) as [fr r2] eqn:E2. apply match_frac_length in E2.
  destruct (match_exp r2) as [ex r3] eqn:E3. apply match_exp_length in E3.
  destruct fr, ex; intros [= _ <-]; lia.
Qed.

Lemma strip_prefix_length (p s r : pystr) :
  strip_prefix p s = Some r -> (length r + length p = length s)%nat.
Proof.
  revert s. induction p as [|a p IH]; intros [|b s]; cbn [strip_prefix length];
    try discriminate; try (intros [= <-]; cbn [length]; lia).
  destruct (a =? b); [|discriminate]. intros H. apply IH in H. lia.
Qed.

Lemma match_constant_length (s : pystr) (v : json) (r : pystr) :
  match_constant s = Some (v, r) -> (length r < length s)%nat.
Proof.
  unfold match_constant.
  destruct (strip_prefix (lit "NaN") s) eqn:E1.
  { intros [= _ <-]. apply strip_prefix_length in E1. cbn in E1. lia. }
  destruct (strip_prefix (lit "Infinity") s) eqn:E2.
  { intros [= _ <-]. apply strip_prefix_length in E2. cbn in E2. lia. }
  destruct (strip_prefix (lit "-Infinity") s) eqn:E3; [|discriminate].
  intros [= _ <-]. apply strip_prefix_length in E3. cbn in E3. lia.
Qed.

(** What the scanner tries on a text that opens neither a string, an
    object nor an array. *)
Lemma scan_atom_length (s : pystr) (v : json) (r : pystr) :
  match strip_prefix (lit "null") s with
  | Some r' => Some (JNull, r')
  | None =>
    match strip_prefix (lit "true") s with
    | Some r' => Some (JBool true, r')
    | None =>
      match strip_prefix (lit "false") s with
      | Some r' => Some (JBool false, r')
      | None =>
        match match_number s with
        | Some x => Some x
        | None => match_constant s
        end
      end
    end
  end = Some (v, r) -> (length r < length s)%nat.
Proof.
  destruct (strip_prefix (lit "null") s) eqn:E1.
  { intros [= _ <-]. apply strip_prefix_length in E1. cbn in E1. lia. }
  destruct (strip_prefix (lit "true") s) eqn:E2.
  { intros [= _ <-]. apply strip_prefix_length in E2. cbn in E2. lia. }
  destruct (strip_prefix (lit "false") s) eqn:E3.
  { intros [= _ <-]. apply strip_prefix_length in E3. cbn in E3. lia. }
  destruct (match_number s) as [[v' r']|] eqn:E4.
  { intros [= _ <-]. now apply match_number_length in E4. }
  apply match_constant_length.
Qed.

Lemma scan_length (f : nat) :
  (forall s v r, scan_once f s = Some (v, r) -> (length r < length s)%nat)
  /\ (forall d s v r,
        object_members f d s = Some (v, r) -> (length r < length s)%nat)
  /\ (forall acc s v r,
        array_elements f acc s = Some (v, r) -> (length r < length s)%nat).
Proof.
  induction f as [|f (IHs & IHo & IHa)]; [repeat split; discriminate|].
  split; [|split].
  - intros [|c r0] v r; [discriminate|]. cbn [scan_once length].
    destruct (c =? 34).
    { destruct (scanstring r0) as [[str r']|] eqn:E; [|discriminate].
      intros [= _ <-]. apply scanstring_length in E. lia. }
    destruct (c =? 123).
    { pose proof (skip_ws_length r0) as L.
      destruct (skip_ws r0) as [|q r']; [discriminate|]. cbn [length] in L.
      destruct (q =? 125); [intros [= _ <-]; lia|].
      destruct (q =? 34); [|discriminate]. intros H. apply IHo in H. lia. }
    destruct (c =? 91).
    { pose proof (skip_ws_length r0) as L.
      destruct (skip_ws r0) as [|q r']; [discriminate|]. cbn [length] in L.
      destruct (q =? 93); [intros [= _ <-]; lia|].
      intros H. apply IHa in H. cbn [length] in H. lia. }
    intros H. apply scan_atom_length in H. cbn [length] in H. lia.
  - intros d s v r. cbn [object_members].
    destruct (scanstring s) as [[key r0]|] eqn:E0; [|discriminate].
    apply scanstring_length in E0.
    pose proof (skip_ws_length r0) as L0.
    destruct (skip_ws r0) as [|c r1]; [discriminate|]. cbn [length] in L0.
    destruct (c =? 58); [|discriminate].
    pose proof (skip_ws_length r1) as L1.
    destruct (scan_once f (skip_ws r1)) as [[v' r2]|] eqn:E1; [|discriminate].
    apply IHs in E1.
    pose proof (skip_ws_length r2) as L2.
    destruct (skip_ws r2) as [|c2 r3]; [discriminate|]. cbn [length] in L2.
    destruct (c2 =? 125); [intros [= _ <-]; lia|].
    destruct (c2 =? 44); [|discriminate].
    pose proof (skip_ws_length r3) as L3.
    destruct (skip_ws r3) as [|q r4]; [discriminate|]. cbn [length] in L3.
    destruct (q =? 34); [|discriminate]. intros H. apply IHo in H. lia.
  - intros acc s v r. cbn [array_elements].
    destruct (scan_once f s) as [[v' r0]|] eqn:E0; [|discriminate].
    apply IHs in E0.
    pose proof (skip_ws_length r0) as L0.
    destruct (skip_ws r0) as [|c r1]; [discriminate|]. cbn [length] in L0.
    destruct (c =? 93); [intros [= _ <-]; lia|].
    destruct (c =? 44); [|discriminate].
    pose proof (skip_ws_length r1) as L1.
    intros H. apply IHa in H. lia.
Qed.

Lemma scan_fuel_step (f : nat) :
  (forall s, (2 * length s + 1 <= f)%nat -> scan_once (S f) s = scan_once f s)
  /\ (forall d s, (2 * length s <= f)%nat ->
        object_members (S f) d s = object_members f d s)
  /\ (forall acc s, (2 * length s + 2 <= f)%nat ->
        array_elements (S f) acc s = array_elements f acc s).
Proof.
  induction f as [|f (IHs & IHo & IHa)].
  { split; [|split].
    - intros s H. lia.
    - intros d [|c s] H; [reflexivity|cbn [length] in H; lia].
    - intros acc s H. lia. }
  split; [|split].
  - intros [|c r0] Hf; [reflexivity|]. cbn [length] in Hf.
    cbn [scan_once].
    destruct (c =? 34); [reflexivity|].
    destruct (c =? 123).
    { pose proof (skip_ws_length r0) as L.
      destruct (skip_ws r0) as [|q r']; [reflexivity|]. cbn [length] in L.
      destruct (q =? 125); [reflexivity|].
      destruct (q =? 34); [|reflexivity]. apply IHo. lia. }
    destruct (c =? 91); [|reflexivity].
    pose proof (skip_ws_length r0) as L.
    destruct (skip_ws r0) as [|q r']; [reflexivity|]. cbn [length] in L.
    destruct (q =? 93); [reflexivity|]. apply IHa. cbn [length]. lia.
  - intros d s Hf. cbn [object_members].
    destruct (scanstring s) as [[key r0]|] eqn:E0; [|reflexivity].
    apply scanstring_length in E0.
    pose proof (skip_ws_length r0) as L0.
    destruct (skip_ws r0) as [|c r1]; [reflexivity|]. cbn [length] in L0.
    destruct (c =? 58); [|reflexivity].
    pose proof (skip_ws_length r1) as L1.
    rewrite IHs by lia.
    destruct (scan_once f (skip_ws r1)) as [[v' r2]|] eqn:E1; [|reflexivity].
    apply (proj1 (scan_length f)) in E1.
    pose proof (skip_ws_length r2) as L2.
    destruct (skip_ws r2) as [|c2 r3]; [reflexivity|]. cbn [length] in L2.
    destruct (c2 =? 125); [reflexivity|].
    destruct (c2 =? 44); [|reflexivity].
    pose proof (skip_ws_length r3) as L3.
    destruct (skip_ws r3) as [|q r4]; [reflexivity|]. cbn [length] in L3.
    destruct (q =? 34); [|reflexivity]. apply IHo. lia.
  - intros acc s Hf. cbn [array_elements].
    rewrite IHs by lia.
    destruct (scan_once f s) as [[v' r0]|] eqn:E0; [|reflexivity].
    apply (proj1 (scan_length f)) in E0.
    pose proof (skip_ws_length r0) as L0.
    destruct (skip_ws r0) as [|c r1]; [reflexivity|]. cbn [length] in L0.
    destruct (c =? 93); [reflexivity|].
    destruct (c =? 44); [|reflexivity].
    pose proof (skip_ws_length r1) as L1.
    apply IHa. lia.
Qed.

(** More fuel than [json_loads] gives changes nothing. *)
Lemma scan_once_fuel_enough (s : pystr) (extra : nat) :
  scan_once (extra + (2 + 2 * length s)) (skip_ws s)
  = scan_once (2 + 2 * length s) (skip_ws s).
Proof.
  induction extra as [|k IH]; [reflexivity|]. rewrite <- IH.
  change (S k + (2 + 2 * length s))%nat with (S (k + (2 + 2 * length s))).
  apply (proj1 (scan_fuel_step (k + (2 + 2 * length s)))).
  pose proof (skip_ws_length s). lia.
Qed.

(** [errors="replace"] changes nothing on well-formed input: there
    [resp.text] is the strict decoding of the body. *)
Lemma utf8_decode_replace_valid (bs : bytes) (s : pystr) :
  utf8_decode bs = Some s -> utf8_decode_replace bs = s.
Proof.
  remember (length bs) as n eqn:Hn. revert bs s Hn.
  induction n as [n IH] using lt_wf_ind. intros bs s Hn.
  destruct bs as [|b0 r0]; cbn [utf8_decode utf8_decode_replace].
  { now intros [= <-]. }
  cbv zeta.
  destruct (Byte.to_N b0 <? 0x80).
  { destruct (utf8_decode r0) as [s0|] eqn:E; [|discriminate].
    intros [= <-]. f_equal. apply (IH (length r0)); cbn in *; auto; lia. }
  destruct (Byte.to_N b0 <? 0xC2); [discriminate|].
  destruct (Byte.to_N b0 <? 0xE0).
  { destruct r0 as [|b1 r1]; [discriminate|].
    destruct (is_cont (Byte.to_N b1)); [|discriminate].
    destruct (utf8_decode r1) as [s0|] eqn:E; [|discriminate].
    intros [= <-]. f_equal. apply (IH (length r1)); cbn in *; auto; lia. }
  destruct (Byte.to_N b0 <? 0xF0).
  { destruct r0 as [|b1 [|b2 r2]]; try discriminate.
    destruct (is_cont (Byte.to_N b1)); [|discriminate].
    destruct (is_cont (Byte.to_N b2)); [|discriminate].
    cbn [andb].
    destruct (negb _ && negb _); [|discriminate].
    destruct (utf8_decode r2) as [s0|] eqn:E; [|discriminate].
    intros [= <-]. f_equal. apply (IH (length r2)); cbn in *; auto; lia. }
  destruct (Byte.to_N b0 <? 0xF5); [|discriminate].
  destruct r0 as [|b1 [|b2 [|b3 r3]]]; try discriminate.
  destruct (is_cont (Byte.to_N b1)); [|discriminate].
  destruct (is_cont (Byte.to_N b2)); [|discriminate].
  destruct (is_cont (Byte.to_N b3)); [|discriminate].
  cbn [andb].
  destruct (negb _ && negb _); [|discriminate].
  destruct (utf8_decode r3) as [s0|] eqn:E; [|discriminate].
  intros [= <-]. f_equal. apply (IH (length r3)); cbn in *; auto; lia.
Qed.

(** ** [paginate_data] *)

Lemma py_slice_inside {A : Type} (l : list A) (start len : Z) :
  (0 <= start)%Z -> (0 <= len)%Z ->
  py_slice l start (start + len)
  = firstn (Z.to_nat len) (skipn (Z.to_nat start) l).
Proof.
  intros Hs Hl. unfold py_slice, slice_index. cbv zeta.
  set (n := Z.of_nat (length l)).
  destruct (Z.ltb_spec start 0); [lia|].
  destruct (Z.ltb_spec (start + len) 0); [lia|].
  destruct (Z.le_gt_cases n start) as [Hge|Hlt].
  - (* the slice starts at or after the end: both sides are empty *)
    rewrite !Z.min_r by lia. rewrite Z.sub_diag. cbn [Z.to_nat firstn].
    rewrite (skipn_all2 (n := Z.to_nat start)) by (unfold n in *; lia).
    now rewrite firstn_nil.
  - rewrite (Z.min_l start n) by lia.
    destruct (Z.le_gt_cases (start + len) n).
    + rewrite Z.min_l by lia. f_equal. lia.
    + rewrite Z.min_r by lia.
      rewrite !firstn_all2; auto; rewrite length_skipn; subst n; lia.
Qed.

(** C4. [paginate_data] on a 1-based page and a positive limit returns the
    slice from [start = (page-1)*limit] up to (excluding)
    [start + limit], the length of the list as [total], and
    [ceil(total/limit)] as [total_pages] (the least [n] with
    [total <= n * limit]); page 2 of size 3 of seven elements is the
    elements at indices 3 to 5 with 3 pages, and page 1 of size 25 of the
    empty list is empty with 0 pages. *)
Theorem paginate_data_correct {A : Type} (items : list A) (page limit : Z)
    (a0 a1 a2 a3 a4 a5 a6 : A) :
  (1 <= page)%Z -> (1 <= limit)%Z ->
  (exists (d : list A) (tp : Z),
     paginate_data items page limit
     = Return {| data := d; total := Z.of_nat (length items);
                 page := page; limit := limit; total_pages := tp |}
     /\ (forall i : nat,
           d !! i = if decide (Z.of_nat i < limit)%Z
                    then items !! (Z.to_nat ((page - 1) * limit) + i)%nat
                    else None)
     /\ ((tp - 1) * limit < Z.of_nat (length items) <= tp * limit)%Z)
  /\ paginate_data [a0; a1; a2; a3; a4; a5; a6] 2 3
     = Return {| data := [a3; a4; a5]; total := 7; page := 2; limit := 3;
                 total_pages := 3 |}
  /\ paginate_data (@nil A) 1 25
     = Return {| data := []; total := 0; page := 1; limit := 25;
                 total_pages := 0 |}.
Proof.
  intros Hp Hl. split; [|split; reflexivity].
  unfold paginate_data. cbv zeta.
  destruct (Z.eqb_spec limit 0); [lia|].
  eexists _, _. split; [reflexivity|]. split.
  - intros i. rewrite py_slice_inside by nia.
    rewrite lookup_take, lookup_drop.
    destruct (decide (i < Z.to_nat limit)%nat),
             (decide (Z.of_nat i < limit)%Z); try reflexivity; lia.
  - pose proof (Z.div_mod (Z.of_nat (length items) + limit - 1) limit) as D.
    pose proof (Z.mod_pos_bound (Z.of_nat (length items) + limit - 1) limit).
    nia.
Qed.

Lemma paginate_data_correct_witness :
  exists (d : list Z) (tp : Z),
    paginate_data [10; 20; 30; 40; 50; 60; 70]%Z 2 3
    = Return {| data := d; total := 7; page := 2; limit := 3;
                total_pages := tp |}
    /\ d !! 0%nat = Some 40%Z /\ tp = 3%Z.
Proof.
  destruct (paginate_data_correct [10; 20; 30; 40; 50; 60; 70]%Z 2 3
              0%Z 0%Z 0%Z 0%Z 0%Z 0%Z 0%Z) as [(d & tp & E & Hd & Htp) _]; [lia|lia|].
  exists d, tp. split; [exact E|]. split.
  - rewrite (Hd 0%nat). reflexivity.
  - cbn in Htp. lia.
Defined.

(** ** [forward_request] *)

(** What [raise HTTPException(...)] raises is an [HTTPException] with the
    status it is given, or the [ValueError] of the status table. *)
Lemma HTTPException_of_cases (phrase : Z -> option pystr) (status : Z)
    (detail : json) :
  (exists d, HTTPException_of phrase status detail = HTTPException status d)
  \/ HTTPException_of phrase status detail = ValueError.
Proof.
  unfold HTTPException_of.
  destruct detail; try (left; eexists; reflexivity).
  destruct (phrase status); [left; eexists; reflexivity|now right].
Qed.

Lemma HTTPException_of_detail (phrase : Z -> option pystr) (status : Z)
    (detail : json) :
  detail <> JNull ->
  HTTPException_of phrase status detail = HTTPException status detail.
Proof. intros N. destruct detail; try reflexivity. now destruct N. Qed.

Lemma forward_request_get (path : pystr) (env : Env) (st : State) :
  forward_request (lit "GET") path true env st
  = (match origin env with
     | Return resp =>
       if (400 <=? status_code resp)%Z
       then Raise (HTTPException_of (HTTPStatus env) (status_code resp)
                     (error_detail resp))
       else Return (Raw (content resp))
     | Raise (RequestError msg) =>
       Raise (HTTPException 503
                (JStr (lit "Upstream server unavailable: " ++ msg)))
     | Raise e => Raise e
     end,
     emit (EvOriginGet (REGISTRY_URL env ++ path)) st).
Proof.
  unfold forward_request, try_except, bind, registry_url, client_get, raise,
    raise_HTTPException, ret, lift.
  destruct (decide (lit "GET" = lit "GET")) as [_|N]; [|congruence].
  destruct (origin env) as [resp|e].
  - destruct (400 <=? status_code resp)%Z; [|reflexivity].
    destruct (HTTPException_of_cases (HTTPStatus env) (status_code resp)
                (error_detail resp)) as [[d ->]| ->]; reflexivity.
  - destruct e; reflexivity.
Qed.

Lemma forward_request_other (method path : pystr) (raw : bool) (env : Env)
    (st : State) :
  method <> lit "GET" ->
  forward_request method path raw env st
  = (Raise (HTTPException 405 (JStr (lit "Method not allowed"))), st).
Proof.
  intros N. unfold forward_request, try_except, bind, raise_HTTPException.
  destruct (decide (method = lit "GET")); [contradiction|reflexivity].
Qed.

(** C2 (as amended).  A GET forwarded on the miss path: a status below 400
    returns the body unchanged; a status of 400 or more raises an error
    with that status whose detail is the [detail] field of the body when
    the body is a JSON object that has it and it is not [null], the
    phrase of the status when the field is [null], the fixed message
    when the body is a JSON object without the field or when the body is
    not a JSON object and its text is empty, and the text of the body
    otherwise; a failed network call raises a 503 whose detail carries
    the failure.  (A [null] detail under a status that the status table
    does not have raises the [ValueError] of the table instead.) *)
Theorem forward_request_outcomes (path : pystr) (env : Env) (st : State)
    (resp : httpx_Response) (msg : pystr) :
  let r := fst (forward_request (lit "GET") path true env st) in
  let error detail := Raise (HTTPException (status_code resp) detail) in
  (origin env = Return resp -> (status_code resp < 400)%Z ->
   r = Return (Raw (content resp)))
  /\ (origin env = Return resp -> (400 <= status_code resp)%Z ->
      (forall d v, resp_json resp = Return (JObj d) ->
                   dict_get d (lit "detail") = Some v -> v <> JNull ->
                   r = error v)
      /\ (forall d phrase, resp_json resp = Return (JObj d) ->
                           dict_get d (lit "detail") = Some JNull ->
                           HTTPStatus env (status_code resp) = Some phrase ->
                           r = error (JStr phrase))
      /\ (forall d, resp_json resp = Return (JObj d) ->
                    dict_get d (lit "detail") = Some JNull ->
                    HTTPStatus env (status_code resp) = None ->
                    r = Raise ValueError)
      /\ (forall d, resp_json resp = Return (JObj d) ->
                    dict_get d (lit "detail") = None ->
                    r = error (JStr (lit "Error from upstream server")))
      /\ ((forall d, resp_json resp <> Return (JObj d)) ->
          resp_text resp <> [] -> r = error (JStr (resp_text resp)))
      /\ ((forall d, resp_json resp <> Return (JObj d)) ->
          resp_text resp = [] ->
          r = error (JStr (lit "Error from upstream server"))))
  /\ (origin env = Raise (RequestError msg) ->
      r = Raise (HTTPException 503
                   (JStr (lit "Upstream server unavailable: " ++ msg)))).
Proof.
  cbv zeta. rewrite forward_request_get. cbn [fst].
  split; [|split].
  - intros -> H. destruct (Z.leb_spec 400 (status_code resp)); [lia|].
    reflexivity.
  - intros -> H. destruct (Z.leb_spec 400 (status_code resp)); [|lia].
    unfold error_detail. repeat split.
    + intros d v -> -> Hv. now rewrite HTTPException_of_detail.
    + intros d phrase -> -> Hp. cbn [HTTPException_of]. now rewrite Hp.
    + intros d -> -> Hp. cbn [HTTPException_of]. now rewrite Hp.
    + intros d -> ->. reflexivity.
    + intros Hn Ht.
      destruct (resp_json resp) as [[| | | | | |d]|];
        try (destruct (resp_text resp); [contradiction|reflexivity]).
      now destruct (Hn d).
    + intros Hn ->.
      destruct (resp_json resp) as [[| | | | | |d]|]; try reflexivity.
      now destruct (Hn d).
  - intros ->. reflexivity.
Qed.

Lemma forward_request_outcomes_witness :
  fst (forward_request (lit "GET") news_path true
         (world (answer 404 not_found_body "application/json")) empty_state)
  = Raise (HTTPException 404 (JStr (lit "not found"))).
Proof.
  destruct (forward_request_outcomes news_path
              (world (answer 404 not_found_body "application/json"))
              empty_state (answer 404 not_found_body "application/json") [])
    as (_ & H & _).
  destruct (H eq_refl ltac:(cbn; lia)) as (Hd & _).
  apply (Hd [(lit "detail", JStr (lit "not found"))]);
    [vm_compute; reflexivity|vm_compute; reflexivity|discriminate].
Defined.

(** C2 (as stated) fails in two ways.  On a JSON object without a
    [detail] field, the origin answering 500 with the body [{}], the
    detail that the caller receives is the fixed message, not the text
    of the body.  On a [detail] field that is [null], the origin
    answering 404, the detail is the phrase of the status, neither the
    field nor the text of the body. *)
Lemma forward_request_detail_counterexample :
  let resp := answer 500 (blit "{}") "application/json" in
  let null_body := blit "{" ++ [x22] ++ blit "detail" ++ [x22]
                   ++ blit ": null}" in
  let resp' := answer 404 null_body "application/json" in
  (resp_json resp = Return (JObj [])
   /\ resp_text resp = lit "{}"
   /\ fst (forward_request (lit "GET") news_path true (world resp) empty_state)
      = Raise (HTTPException 500 (JStr (lit "Error from upstream server")))
   /\ JStr (lit "Error from upstream server") <> JStr (resp_text resp))
  /\ (resp_json resp' = Return (JObj [(lit "detail", JNull)])
      /\ fst (forward_request (lit "GET") news_path true (world resp')
                empty_state)
         = Raise (HTTPException 404 (JStr (lit "Not Found")))
      /\ JStr (lit "Not Found") <> JNull
      /\ JStr (lit "Not Found") <> JStr (resp_text resp')).
Proof.
  cbv zeta. repeat split; try (vm_compute; reflexivity); discriminate.
Qed.

(** A [null] detail under a status that the table of the interpreter
    does not have: the constructor of [HTTPException] raises the
    [ValueError] of the table, and that is what escapes. *)
Example null_detail_under_unknown_status :
  let null_body := blit "{" ++ [x22] ++ blit "detail" ++ [x22]
                   ++ blit ": null}" in
  HTTPStatus_phrase 599 = None
  /\ fst (forward_request (lit "GET") news_path true
            (world (answer 599 null_body "application/json")) empty_state)
     = Raise ValueError.
Proof. cbv zeta. split; vm_compute; reflexivity. Qed.

(** The text of a body is read under the charset that the answer
    declares: the byte E9 is U+00E9 under ISO 8859-1, and U+FFFD when no
    charset is declared. *)
Example declared_charset_decides_the_text :
  let latin := {| status_code := 500; content := [xe9];
                  content_type := lit "text/plain; charset=iso-8859-1";
                  text_decoder := Some latin_1_decode |} in
  fst (forward_request (lit "GET") news_path true (world latin) empty_state)
  = Raise (HTTPException 500 (JStr [0xE9]))
  /\ fst (forward_request (lit "GET") news_path true
            (world (answer 500 [xe9] "text/plain")) empty_state)
     = Raise (HTTPException 500 (JStr [0xFFFD])).
Proof. cbv zeta. split; vm_compute; reflexivity. Qed.

(** ** [proxy_request] *)

(** A GET for [path], in the world [env], from the state [st]. *)
Section Get_request.

Variables (path : pystr) (page limit : option Z) (env : Env) (st : State).

(** The lookup of a GET, case by case. *)
Lemma cache_lookup_get :
  let key := cache_key (lit "GET") path in
  let st1 := emit (EvRedisGet key) st in
  cache_lookup (lit "GET") path page limit env st
  = match redis_get_error env with
    | Some e => (Return None, emit (EvPrint (RedisGetError e)) st1)
    | None =>
      match store st !! key with
      | Some (c :: cs) =>
        let st2 := push_task (refresh key (lit "GET") path page limit) st1 in
        match loads (c :: cs) with
        | Raise e => (Return None, emit (EvPrint (CacheParseError e)) st2)
        | Return obj =>
          match serve_cached obj page limit with
          | Return r => (Return (Some r), st2)
          | Raise e => (Return None, emit (EvPrint (CacheParseError e)) st2)
          end
        end
      | _ => (Return None, st1)
      end
    end.
Proof.
  cbv zeta. unfold cache_lookup, try_except, bind, redis_get, add_task, lift,
    print, ret.
  destruct (decide (lit "GET" = lit "GET")) as [_|N]; [|congruence].
  destruct (redis_get_error env); [reflexivity|].
  destruct (store st !! cache_key (lit "GET") path) as [[|c cs]|];
    try reflexivity.
  destruct (loads (c :: cs)); [|reflexivity].
  destruct (serve_cached a page limit); reflexivity.
Qed.

(** The origin fetch and the store of a GET, case by case. *)
Lemma fetch_and_store_get :
  let key := cache_key (lit "GET") path in
  let st1 := emit (EvOriginGet (REGISTRY_URL env ++ path)) st in
  fetch_and_store (lit "GET") path env st
  = match origin env with
    | Return resp =>
      if (400 <=? status_code resp)%Z
      then (Raise (HTTPException_of (HTTPStatus env) (status_code resp)
                     (error_detail resp)), st1)
      else
        let r := Return (Response (content resp) (lit "application/json")) in
        match utf8_decode (content resp) with
        | None => (r, emit (EvPrint (RedisSetError UnicodeDecodeError)) st1)
        | Some s =>
          let v := json_dumps (cache_entry s (clock env)) in
          let st2 := emit (EvRedisSet key v) st1 in
          match redis_set_error env with
          | Some e => (r, emit (EvPrint (RedisSetError e)) st2)
          | None => (r, set_store (<[key := v]> (store st)) st2)
          end
        end
    | Raise (RequestError msg) =>
      (Raise (HTTPException 503
                (JStr (lit "Upstream server unavailable: " ++ msg))), st1)
    | Raise e => (Raise e, st1)
    end.
Proof.
  cbv zeta. unfold fetch_and_store, bind. rewrite forward_request_get.
  destruct (decide (lit "GET" = lit "GET")) as [_|N]; [|congruence].
  destruct (origin env) as [resp|e].
  - destruct (400 <=? status_code resp)%Z; [reflexivity|].
    unfold try_except, bind, lift, decode, time_time, redis_set, print, ret.
    destruct (utf8_decode (content resp)); [|reflexivity].
    destruct (redis_set_error env); reflexivity.
  - destruct e; reflexivity.
Qed.

Lemma cache_lookup_get_store :
  store (snd (cache_lookup (lit "GET") path page limit env st)) = store st.
Proof.
  rewrite cache_lookup_get. cbv zeta.
  destruct (redis_get_error env); [reflexivity|].
  destruct (store st !! _) as [[|c cs]|]; try reflexivity.
  destruct (loads _); [|reflexivity]. destruct (serve_cached _ _ _); reflexivity.
Qed.

Lemma proxy_request_get :
  proxy_request (lit "GET") path page limit env st
  = match cache_lookup (lit "GET") path page limit env st with
    | (Return (Some r), st') => (Return r, st')
    | (Return None, st') => fetch_and_store (lit "GET") path env st'
    | (Raise e, st') => (Raise e, st')
    end.
Proof.
  unfold proxy_request, bind.
  destruct (cache_lookup _ _ _ _ _ _) as [[[r|]|e] st']; reflexivity.
Qed.

Lemma cache_lookup_returns :
  exists served, fst (cache_lookup (lit "GET") path page limit env st)
                 = Return served.
Proof.
  rewrite cache_lookup_get. cbv zeta.
  destruct (redis_get_error env); [now eexists|].
  destruct (store st !! _) as [[|c cs]|]; try now eexists.
  destruct (loads _); [|now eexists].
  destruct (serve_cached _ _ _); now eexists.
Qed.

(** A request that misses does what the origin fetch does on the state
    that the lookup leaves, whose store is the one it found. *)
Lemma proxy_request_miss :
  fst (cache_lookup (lit "GET") path page limit env st) = Return None ->
  exists st1,
    store st1 = store st
    /\ (forall k v, In (EvRedisSet k v) (trace st1) ->
                    In (EvRedisSet k v) (trace st))
    /\ proxy_request (lit "GET") path page limit env st
       = fetch_and_store (lit "GET") path env st1.
Proof.
  intros Hm. rewrite proxy_request_get.
  pose proof cache_lookup_get_store as Hs.
  assert (Ht : forall k v,
             In (EvRedisSet k v)
                (trace (snd (cache_lookup (lit "GET") path page limit env st)))
             -> In (EvRedisSet k v) (trace st)).
  { intros k v. rewrite cache_lookup_get. cbv zeta.
    destruct (redis_get_error env);
      [|destruct (store st !! _) as [[|c cs]|];
        [|destruct (loads _); [destruct (serve_cached _ _ _)|]|]];
      cbn [snd emit push_task trace]; rewrite ?in_app_iff; cbn [In];
      intuition discriminate. }
  destruct (cache_lookup _ _ _ _ _ _) as [r st1]. cbn [fst snd] in *.
  subst r. now exists st1.
Qed.

End Get_request.

(** The lookup never raises, never writes the store, and what it finds
    depends on the store and on whether the store answers only. *)
Lemma cache_lookup_store (method path : pystr) (page limit : option Z)
    (env : Env) (st : State) :
  store (snd (cache_lookup method path page limit env st)) = store st.
Proof.
  destruct (decide (method = lit "GET")) as [->|N];
    [apply cache_lookup_get_store|].
  unfold cache_lookup. destruct (decide _); [contradiction|reflexivity].
Qed.

Lemma cache_lookup_depends (path : pystr) (page limit : option Z)
    (env env' : Env) (st st' : State) :
  store st' = store st -> redis_get_error env' = redis_get_error env ->
  fst (cache_lookup (lit "GET") path page limit env' st')
  = fst (cache_lookup (lit "GET") path page limit env st).
Proof.
  intros Hs He. rewrite !cache_lookup_get. cbv zeta. rewrite Hs, He.
  destruct (redis_get_error env); [reflexivity|].
  destruct (store st !! _) as [[|c cs]|]; try reflexivity.
  destruct (loads _); [|reflexivity]. destruct (serve_cached _ _ _); reflexivity.
Qed.

Lemma proxy_request_other (method path : pystr) (page limit : option Z)
    (env : Env) (st : State) :
  method <> lit "GET" ->
  proxy_request method path page limit env st
  = (Raise (HTTPException 405 (JStr (lit "Method not allowed"))), st).
Proof.
  intros N. unfold proxy_request, bind, cache_lookup.
  destruct (decide (method = lit "GET")); [contradiction|].
  unfold ret, fetch_and_store, bind. now rewrite forward_request_other.
Qed.

(** C7. A method other than GET is rejected with a 405 at once: the
    store is not read or written, the origin is not called, no refresh
    is queued; the state after the request is the state before it. *)
Theorem proxy_request_rejects_other_methods (method path : pystr)
    (page limit : option Z) (env : Env) (st : State) :
  method <> lit "GET" ->
  let out := proxy_request method path page limit env st in
  fst out = Raise (HTTPException 405 (JStr (lit "Method not allowed")))
  /\ store (snd out) = store st
  /\ trace (snd out) = trace st
  /\ tasks (snd out) = tasks st.
Proof.
  intros N. cbv zeta. rewrite proxy_request_other by assumption.
  repeat split.
Qed.

Lemma proxy_request_rejects_other_methods_witness :
  let out := proxy_request (lit "POST") news_path None None
               (world (answer 200 (blit "[]") "application/json"))
               empty_state in
  fst out = Raise (HTTPException 405 (JStr (lit "Method not allowed")))
  /\ trace (snd out) = [].
Proof.
  cbv zeta.
  destruct (proxy_request_rejects_other_methods (lit "POST") news_path None
              None (world (answer 200 (blit "[]") "application/json"))
              empty_state) as (H1 & _ & H2 & _); [discriminate|].
  split; [exact H1|exact H2].
Defined.

(** C10. On the miss path, an origin answer below 400 whose body is not
    valid UTF-8 is returned byte for byte, nothing is written to the
    store, and the next request for the key misses again. *)
Theorem undecodable_body_served_not_cached (path : pystr)
    (page limit : option Z) (env : Env) (st : State) (resp : httpx_Response) :
  fst (cache_lookup (lit "GET") path page limit env st) = Return None ->
  origin env = Return resp -> (status_code resp < 400)%Z ->
  utf8_decode (content resp) = None ->
  let out := proxy_request (lit "GET") path page limit env st in
  fst out = Return (Response (content resp) (lit "application/json"))
  /\ store (snd out) = store st
  /\ (forall k v, In (EvRedisSet k v) (trace (snd out)) ->
                  In (EvRedisSet k v) (trace st))
  /\ (forall env', redis_get_error env' = redis_get_error env ->
        fst (cache_lookup (lit "GET") path page limit env' (snd out))
        = Return None).
Proof.
  intros Hm Ho Hs Hd. cbv zeta.
  destruct (proxy_request_miss path page limit env st Hm)
    as (st1 & Hst & Htr & ->).
  rewrite fetch_and_store_get. cbv zeta. rewrite Ho.
  destruct (Z.leb_spec 400 (status_code resp)); [lia|]. rewrite Hd.
  cbn [fst snd emit store trace]. split; [reflexivity|].
  split; [exact Hst|]. split.
  - intros k v. rewrite !in_app_iff. cbn [In].
    intros [[H1|[H1|[]]]|[H1|[]]]; try discriminate. now apply Htr.
  - intros env' He. rewrite <- Hm. now apply cache_lookup_depends.
Qed.

Lemma undecodable_body_served_not_cached_witness :
  let out := proxy_request (lit "GET") news_path None None
               (world (answer 200 [xff] "application/json")) empty_state in
  fst out = Return (Response [xff] (lit "application/json"))
  /\ store (snd out) = ∅.
Proof.
  destruct (undecodable_body_served_not_cached news_path None None
              (world (answer 200 [xff] "application/json")) empty_state
              (answer 200 [xff] "application/json"))
    as (H1 & H2 & _); [reflexivity|reflexivity|cbn; lia|reflexivity|].
  split; [exact H1|exact H2].
Defined.

Lemma serve_cached_entry (s : pystr) (now : timestamp) (page limit : option Z)
    (b : bytes) :
  utf8_encode s = Some b ->
  serve_cached (cache_entry s now) page limit
  = Return (Response b (lit "application/json")).
Proof.
  intros H. unfold serve_cached, cache_entry. cbn [dict_get].
  destruct (decide (lit "payload" = lit "payload")) as [_|N]; [|congruence].
  destruct (decide (lit "payload" = lit "is_raw")) as [E|_]; [discriminate E|].
  destruct (decide (lit "is_raw" = lit "is_raw")) as [_|N]; [|congruence].
  cbn [truthy Response_of]. now rewrite H.
Qed.

(** C3. From a cache without an entry for the key, a GET that the origin
    answers with a body that is stored in the envelope makes the next
    GET for the key a hit: it is answered from the store alone, and its
    body is the body of the origin byte for byte. *)
Theorem miss_then_hit (path : pystr) (page limit page' limit' : option Z)
    (env env' : Env) (st : State) (resp : httpx_Response) (s : pystr) :
  let key := cache_key (lit "GET") path in
  store st !! key = None ->
  origin env = Return resp -> (status_code resp < 400)%Z ->
  utf8_decode (content resp) = Some s ->
  redis_set_error env = None -> redis_get_error env' = None ->
  let first := proxy_request (lit "GET") path page limit env st in
  let second := proxy_request (lit "GET") path page' limit' env' (snd first) in
  fst first = Return (Response (content resp) (lit "application/json"))
  /\ store (snd first) !! key = Some (json_dumps (cache_entry s (clock env)))
  /\ json_loads (json_dumps (cache_entry s (clock env)))
     = Some (cache_entry s (clock env))
  /\ fst second = Return (Response (content resp) (lit "application/json"))
  /\ trace (snd second) = trace (snd first) ++ [EvRedisGet key].
Proof.
  intros key Hk Ho Hs Hd Hset Hget.
  assert (Hm : fst (cache_lookup (lit "GET") path page limit env st)
               = Return None).
  { rewrite cache_lookup_get. cbv zeta. fold key. rewrite Hk.
    destruct (redis_get_error env); reflexivity. }
  destruct (proxy_request_miss path page limit env st Hm)
    as (st1 & Hst & _ & E).
  intros first. subst first. rewrite E. clear E.
  rewrite fetch_and_store_get. cbv zeta. rewrite Ho.
  destruct (Z.leb_spec 400 (status_code resp)); [lia|]. rewrite Hd, Hset.
  cbn [fst snd]. fold key.
  pose proof (json_loads_cache_entry s (clock env)
                (utf8_decode_scalar _ _ Hd)) as Hl.
  split; [reflexivity|]. split; [apply lookup_insert_eq|].
  split; [exact Hl|].
  rewrite proxy_request_get, cache_lookup_get. cbv zeta. rewrite Hget.
  fold key. cbn [store set_store]. rewrite lookup_insert_eq.
  rewrite json_dumps_cache_entry. rewrite <- json_dumps_cache_entry.
  unfold loads.
  assert (Hne : exists c cs, json_dumps (cache_entry s (clock env)) = c :: cs)
    by (rewrite json_dumps_cache_entry; eauto).
  destruct Hne as (c & cs & Hne). rewrite Hne. rewrite <- Hne. rewrite Hl.
  rewrite (serve_cached_entry s (clock env) page' limit' (content resp))
    by now apply utf8_encode_decode.
  split; reflexivity.
Qed.

Lemma miss_then_hit_witness :
  let env := world (answer 200 (blit "[1, 2]") "application/json") in
  let first := proxy_request (lit "GET") news_path None None env empty_state in
  let second := proxy_request (lit "GET") news_path None None env (snd first) in
  fst second = Return (Response (blit "[1, 2]") (lit "application/json")).
Proof.
  cbv zeta.
  apply (miss_then_hit news_path None None None None
           (world (answer 200 (blit "[1, 2]") "application/json"))
           (world (answer 200 (blit "[1, 2]") "application/json"))
           empty_state (answer 200 (blit "[1, 2]") "application/json")
           (lit "[1, 2]"));
    reflexivity.
Defined.
(** ** A read that fails or a value that cannot be served *)

(** The origin path does the same to every state: it appends its calls
    to the trace, leaves the queue alone, and sets the entry of the key
    or leaves the store alone. *)
Lemma fetch_and_store_uniform (path : pystr) (env : Env) :
  exists (r : result response) (new : list event) (upd : option pystr),
    In (EvOriginGet (REGISTRY_URL env ++ path)) new
    /\ (forall resp s,
          origin env = Return resp -> (status_code resp < 400)%Z ->
          utf8_decode (content resp) = Some s -> redis_set_error env = None ->
          upd = Some (json_dumps (cache_entry s (clock env))))
    /\ forall st,
         fetch_and_store (lit "GET") path env st
         = (r, {| store := match upd with
                           | Some v => <[cache_key (lit "GET") path := v]>
                                         (store st)
                           | None => store st
                           end;
                  tasks := tasks st;
                  trace := trace st ++ new |}).
Proof.
  assert (Hin : forall (e : event) l, In e (e :: l)) by (intros; now left).
  destruct (origin env) as [resp|e] eqn:Ho.
  - destruct (Z.leb_spec 400 (status_code resp)) as [L|L].
    + eexists _, [_], None. split; [apply Hin|]. split.
      { intros resp' s [= <-] H. lia. }
      intros st. rewrite fetch_and_store_get. cbv zeta. rewrite Ho.
      destruct (Z.leb_spec 400 (status_code resp)); [reflexivity|lia].
    + destruct (utf8_decode (content resp)) as [s|] eqn:Hd.
      * destruct (redis_set_error env) as [e|] eqn:Hs.
        -- eexists _, [_; _; _], None. split; [apply Hin|]. split.
           { intros resp' s' _ _ _ [=]. }
           intros st. rewrite fetch_and_store_get. cbv zeta. rewrite Ho, Hd, Hs.
           destruct (Z.leb_spec 400 (status_code resp)); [lia|].
           unfold emit; cbn [store tasks trace]. now rewrite <- !app_assoc.
        -- eexists _, [_; _], (Some _). split; [apply Hin|]. split.
           { intros resp' s' [= <-] _ Hd' _. rewrite Hd in Hd'.
             injection Hd' as <-. reflexivity. }
           intros st. rewrite fetch_and_store_get. cbv zeta. rewrite Ho, Hd, Hs.
           destruct (Z.leb_spec 400 (status_code resp)); [lia|].
           unfold emit, set_store; cbn [store tasks trace].
           now rewrite <- !app_assoc.
      * eexists _, [_; _], None. split; [apply Hin|]. split.
        { intros resp' s' [= <-] _ Hd'. congruence. }
        intros st. rewrite fetch_and_store_get. cbv zeta. rewrite Ho, Hd.
        destruct (Z.leb_spec 400 (status_code resp)); [lia|].
        unfold emit; cbn [store tasks trace]. now rewrite <- !app_assoc.
  - destruct e;
      (eexists _, [_], None; split; [apply Hin|]; split;
       [intros resp s H; discriminate H|];
       intros st; rewrite fetch_and_store_get; cbv zeta; rewrite Ho;
       reflexivity).
Qed.

Lemma fetch_and_store_read_irrelevant (path : pystr) (env : Env) (st : State) :
  fetch_and_store (lit "GET") path (with_working_read env) st
  = fetch_and_store (lit "GET") path env st.
Proof. rewrite !fetch_and_store_get. reflexivity. Qed.

(** C1 (as amended).  When the store read raises, or the stored value
    cannot be served (it is empty, or [json.loads] raises on it, or
    serving the parsed value raises), a GET goes the way of a miss: the
    caller gets what the same request gets on a cache without the entry
    and with a read that works, so the request fails only as a miss
    fails; the calls to the store and to the origin are the same calls
    in the same order, with at most one logged line in between; the
    origin is asked; and the store ends the same, or is as it was where
    the miss leaves the entry absent.  The one thing that a miss does
    not do: a value that is not empty has its refresh queued before it
    is parsed.  When the origin answers below 400 with a body that is
    valid UTF-8 and the store write succeeds, the entry of the key is
    afterwards the valid encoding of that body. *)
Theorem cache_failure_is_a_miss (path : pystr) (page limit : option Z)
    (env : Env) (st : State) :
  let key := cache_key (lit "GET") path in
  let unservable v :=
    v = [] \/ json_loads v = None
    \/ exists obj e,
         json_loads v = Some obj /\ serve_cached obj page limit = Raise e in
  (is_Some (redis_get_error env)
   \/ exists v, store st !! key = Some v /\ unservable v) ->
  let out := proxy_request (lit "GET") path page limit env st in
  let miss := proxy_request (lit "GET") path page limit
                (with_working_read env) (without_entry key st) in
  fst out = fst miss
  /\ (exists log rest,
        (log = [] \/ exists line, log = [EvPrint line])
        /\ trace (snd miss) = trace st ++ EvRedisGet key :: rest
        /\ trace (snd out) = trace st ++ EvRedisGet key :: log ++ rest)
  /\ In (EvOriginGet (REGISTRY_URL env ++ path)) (trace (snd out))
  /\ tasks (snd miss) = tasks st
  /\ tasks (snd out)
     = tasks st
       ++ match redis_get_error env, store st !! key with
          | None, Some (_ :: _) => [refresh key (lit "GET") path page limit]
          | _, _ => []
          end
  /\ (store (snd out) = store (snd miss)
      \/ store (snd out) = store st
         /\ store (snd miss) = delete key (store st))
  /\ (forall resp s,
        origin env = Return resp -> (status_code resp < 400)%Z ->
        utf8_decode (content resp) = Some s -> redis_set_error env = None ->
        store (snd out) !! key = Some (json_dumps (cache_entry s (clock env)))
        /\ json_loads (json_dumps (cache_entry s (clock env)))
           = Some (cache_entry s (clock env))).
Proof.
  intros key unservable Hf out miss. subst out miss.
  destruct (fetch_and_store_uniform path env) as (r & new & upd & Hin & Hup & F).
  (* the request on the cache without the entry *)
  assert (Em : proxy_request (lit "GET") path page limit
                 (with_working_read env) (without_entry key st)
               = fetch_and_store (lit "GET") path env
                   (emit (EvRedisGet key) (without_entry key st))).
  { rewrite proxy_request_get, cache_lookup_get. cbv zeta. fold key.
    cbn [with_working_read redis_get_error without_entry set_store store emit].
    rewrite lookup_delete_eq. apply fetch_and_store_read_irrelevant. }
  (* the lookup of this request *)
  assert (El : exists log,
             (log = [] \/ exists line, log = [EvPrint line])
             /\ cache_lookup (lit "GET") path page limit env st
                = (Return None,
                   {| store := store st;
                      tasks := tasks st
                        ++ match redis_get_error env, store st !! key with
                           | None, Some (_ :: _) =>
                             [refresh key (lit "GET") path page limit]
                           | _, _ => []
                           end;
                      trace := trace st ++ EvRedisGet key :: log |})).
  { rewrite cache_lookup_get. cbv zeta. fold key.
    destruct Hf as [[e He]|(v & Hv & Hu)].
    - rewrite He. exists [EvPrint (RedisGetError e)]. split; [eauto|].
      unfold emit; cbn [store tasks trace].
      now rewrite app_nil_r, <- app_assoc.
    - destruct (redis_get_error env) as [e|].
      { exists [EvPrint (RedisGetError e)]. split; [eauto|].
        unfold emit; cbn [store tasks trace].
      now rewrite app_nil_r, <- app_assoc. }
      rewrite Hv. destruct v as [|c cs].
      { exists []. split; [now left|].
        unfold emit. cbn [store tasks trace]. now rewrite app_nil_r. }
      unfold loads.
      destruct Hu as [Hu|[Hu|(obj & e & Hu & Hs)]]; [discriminate Hu| |].
      + rewrite Hu. exists [EvPrint (CacheParseError JSONDecodeError)].
        split; [eauto|].
        unfold emit, push_task; cbn [store tasks trace].
        now rewrite <- app_assoc.
      + rewrite Hu, Hs. exists [EvPrint (CacheParseError e)].
        split; [eauto|].
        unfold emit, push_task; cbn [store tasks trace].
        now rewrite <- app_assoc. }
  destruct El as (log & Hlog & El).
  rewrite Em, proxy_request_get, El, !F.
  unfold emit, without_entry, set_store; cbn [fst snd store tasks trace].
  split; [reflexivity|]. split.
  { exists log, new. split; [exact Hlog|].
    rewrite <- !app_assoc. cbn [app]. split; reflexivity. }
  split; [rewrite in_app_iff; now right|].
  split; [reflexivity|]. split; [reflexivity|]. split.
  { destruct upd as [v|]; [left; now rewrite insert_delete_eq|now right]. }
  intros resp s Ho Hlt Hd Hs. rewrite (Hup resp s Ho Hlt Hd Hs).
  split; [apply lookup_insert_eq|].
  apply json_loads_cache_entry. now apply utf8_decode_scalar with (content resp).
Qed.

Lemma cache_failure_is_a_miss_witness :
  let key := cache_key (lit "GET") news_path in
  let env := world (answer 200 (blit "[1, 2]") "application/json") in
  let out := proxy_request (lit "GET") news_path None None env
               (state_with key (lit "not json")) in
  fst out = fst (proxy_request (lit "GET") news_path None None
                   (with_working_read env)
                   (without_entry key (state_with key (lit "not json"))))
  /\ store (snd out) !! key
     = Some (json_dumps (cache_entry (lit "[1, 2]") noon)).
Proof.
  cbv zeta.
  destruct (cache_failure_is_a_miss news_path None None
              (world (answer 200 (blit "[1, 2]") "application/json"))
              (state_with (cache_key (lit "GET") news_path) (lit "not json")))
    as (H1 & _ & _ & _ & _ & _ & H7).
  { right. exists (lit "not json"). split; [reflexivity|].
    right. left. reflexivity. }
  split; [exact H1|].
  apply (H7 (answer 200 (blit "[1, 2]") "application/json") (lit "[1, 2]"));
    reflexivity.
Defined.

(** C1 (as stated) fails in three ways.  The entry is not overwritten
    when the body of the origin cannot be stored: with an unparseable
    entry and an origin that answers 200 with the single byte FF, the
    request succeeds and the unparseable entry is still there.  The
    request is not exactly a miss: the unparseable entry has a refresh
    queued, which the request on the empty cache has not.  And a stored
    value that parses as JSON without being an envelope is no miss: the
    list [[1, 2, 3]] is served from the cache and the origin is not
    asked. *)
Lemma cache_failure_overwrite_counterexample :
  let key := cache_key (lit "GET") news_path in
  let env := world (answer 200 [xff] "application/json") in
  let out := proxy_request (lit "GET") news_path None None env
               (state_with key (lit "not json")) in
  let miss := proxy_request (lit "GET") news_path None None env empty_state in
  let legacy := proxy_request (lit "GET") news_path None None env
                  (state_with key (lit "[1, 2, 3]")) in
  (json_loads (lit "not json") = None
   /\ fst out = Return (Response [xff] (lit "application/json"))
   /\ store (snd out) !! key = Some (lit "not json"))
  /\ (tasks (snd out) = [refresh key (lit "GET") news_path None None]
      /\ tasks (snd miss) = [])
  /\ (json_loads (lit "[1, 2, 3]") = Some (JArr [JInt 1; JInt 2; JInt 3])
      /\ fst legacy = Return (Value (JArr [JInt 1; JInt 2; JInt 3]))
      /\ trace (snd legacy) = [EvRedisGet key]).
Proof. cbv zeta. repeat split; vm_compute; reflexivity. Qed.

(** ** [update_cache_from_origin] *)

Lemma update_cache_from_origin_get (key path : pystr) (page limit : option Z)
    (env : Env) (st : State) :
  let st1 := emit (EvOriginGet (REGISTRY_URL env ++ path)) st in
  update_cache_from_origin key (lit "GET") path page limit env st
  = match origin env with
    | Return resp =>
      if (status_code resp =? 200)%Z then
        match utf8_decode (content resp) with
        | None =>
          (Return tt,
           emit (EvPrint (BackgroundUpdateFailed UnicodeDecodeError)) st1)
        | Some s =>
          let v := json_dumps (cache_entry s (clock env)) in
          let st2 := emit (EvRedisSet key v) st1 in
          match redis_set_error env with
          | Some e => (Return tt, emit (EvPrint (BackgroundUpdateFailed e)) st2)
          | None =>
            (Return tt,
             emit (EvPrint (BackgroundUpdateSuccess key))
               (set_store (<[key := v]> (store st)) st2))
          end
        end
      else (Return tt, st1)
    | Raise e => (Return tt, emit (EvPrint (BackgroundUpdateFailed e)) st1)
    end.
Proof.
  cbv zeta. unfold update_cache_from_origin, try_except, bind, registry_url,
    client_get, lift, decode, time_time, redis_set, print, ret.
  destruct (decide (lit "GET" = lit "GET")) as [_|N]; [|congruence].
  destruct (origin env) as [resp|e]; [|reflexivity].
  destruct (status_code resp =? 200)%Z; [|reflexivity].
  destruct (utf8_decode (content resp)); [|reflexivity].
  destruct (redis_set_error env); reflexivity.
Qed.

Lemma update_cache_from_origin_other (key method path : pystr)
    (page limit : option Z) (env : Env) (st : State) :
  method <> lit "GET" ->
  update_cache_from_origin key method path page limit env st = (Return tt, st).
Proof.
  intros N. unfold update_cache_from_origin, try_except, bind, registry_url,
    ret.
  destruct (decide (method = lit "GET")); [contradiction|reflexivity].
Qed.

Ltac trace_cases H :=
  cbn [snd emit set_store push_task trace] in H;
  rewrite ?in_app_iff in H; cbn [In] in H;
  repeat match type of H with
         | _ \/ _ => destruct H as [H|H]
         | False => destruct H
         end;
  try discriminate H.

(** X22. Where the writes come from.  A write to the store comes from
    an answer of the origin that passes the guard of the writer: a
    status below 400 on the miss path of [proxy_request], the status 200
    in the background refresh; the value written is the envelope of the
    decoded body.  This holds of every call of [set] and of every entry
    that the store holds afterwards and did not hold before. *)
Theorem store_writes_come_from_origin (method path key : pystr)
    (page limit : option Z) (env : Env) (st : State) (k v : pystr) :
  let out := proxy_request method path page limit env st in
  let bg := update_cache_from_origin key method path page limit env st in
  let from_origin (ok : Z -> Prop) (key : pystr) :=
    exists resp s,
      origin env = Return resp /\ ok (status_code resp)
      /\ utf8_decode (content resp) = Some s
      /\ k = key /\ v = json_dumps (cache_entry s (clock env)) in
  (In (EvRedisSet k v) (trace (snd out)) ->
   In (EvRedisSet k v) (trace st)
   \/ from_origin (fun c => c < 400)%Z (cache_key method path))
  /\ (store (snd out) !! k = Some v ->
      store st !! k = Some v
      \/ from_origin (fun c => c < 400)%Z (cache_key method path))
  /\ (In (EvRedisSet k v) (trace (snd bg)) ->
      In (EvRedisSet k v) (trace st) \/ from_origin (fun c => c = 200%Z) key)
  /\ (store (snd bg) !! k = Some v ->
      store st !! k = Some v \/ from_origin (fun c => c = 200%Z) key).
Proof.
  cbv zeta.
  destruct (decide (method = lit "GET")) as [->|N].
  2: { rewrite proxy_request_other by assumption.
       rewrite update_cache_from_origin_other by assumption. cbn [snd].
       repeat split; intros H; now left. }
  assert (Ins : forall (m : gmap pystr pystr) k0 v0,
             <[k0 := v0]> m !! k = Some v ->
             m !! k = Some v \/ (k = k0 /\ v = v0)).
  { intros m k0 v0 H. apply lookup_insert_Some in H as [[<- <-]|[_ H]]; auto. }
  split; [|split; [|split]].
  - rewrite proxy_request_get.
    assert (Ht : In (EvRedisSet k v)
                   (trace (snd (cache_lookup (lit "GET") path page limit
                                  env st)))
                 -> In (EvRedisSet k v) (trace st)).
    { rewrite cache_lookup_get. cbv zeta.
      destruct (redis_get_error env);
        [|destruct (store st !! _) as [[|c cs]|];
          [|destruct (loads _); [destruct (serve_cached _ _ _)|]|]];
        intros H; trace_cases H; assumption. }
    destruct (cache_lookup_returns path page limit env st) as [served Hr].
    destruct (cache_lookup _ _ _ _ _ _) as [r st1]. cbn [fst snd] in *.
    subst r. destruct served as [r|]; [intros H; left; now apply Ht|].
    rewrite fetch_and_store_get. cbv zeta.
    destruct (origin env) as [resp|e].
    + destruct (Z.leb_spec 400 (status_code resp)) as [L|L].
      { intros H; trace_cases H. left; now apply Ht. }
      destruct (utf8_decode (content resp)) as [s|] eqn:Hd.
      * destruct (redis_set_error env); intros H; trace_cases H;
          try (left; now apply Ht);
          injection H as <- <-; right; exists resp, s; auto.
      * intros H; trace_cases H. left; now apply Ht.
    + destruct e; intros H; trace_cases H; left; now apply Ht.
  - rewrite proxy_request_get.
    pose proof (cache_lookup_store (lit "GET") path page limit env st) as Hs.
    destruct (cache_lookup_returns path page limit env st) as [served Hr].
    destruct (cache_lookup _ _ _ _ _ _) as [r st1]. cbn [fst snd] in *.
    subst r. destruct served as [r|]; [cbn [snd]; rewrite Hs; auto|].
    rewrite fetch_and_store_get. cbv zeta.
    destruct (origin env) as [resp|e].
    + destruct (Z.leb_spec 400 (status_code resp)) as [L|L].
      { cbn [snd emit store]. rewrite Hs. auto. }
      destruct (utf8_decode (content resp)) as [s|] eqn:Hd.
      * destruct (redis_set_error env); cbn [snd emit set_store store];
          rewrite Hs; auto.
        intros H. apply Ins in H as [H|[-> ->]]; [now left|].
        right. exists resp, s. auto.
      * cbn [snd emit store]. rewrite Hs. auto.
    + destruct e; cbn [snd emit store]; rewrite Hs; auto.
  - rewrite update_cache_from_origin_get. cbv zeta.
    destruct (origin env) as [resp|e].
    + destruct (Z.eqb_spec (status_code resp) 200) as [L|L].
      * destruct (utf8_decode (content resp)) as [s|] eqn:Hd.
        -- destruct (redis_set_error env); intros H; trace_cases H;
             try (now left);
             injection H as <- <-; right; exists resp, s; auto.
        -- intros H; trace_cases H. now left.
      * intros H; trace_cases H. now left.
    + intros H; trace_cases H. now left.
  - rewrite update_cache_from_origin_get. cbv zeta.
    destruct (origin env) as [resp|e]; [|now left].
    destruct (Z.eqb_spec (status_code resp) 200) as [L|L]; [|now left].
    destruct (utf8_decode (content resp)) as [s|] eqn:Hd; [|now left].
    destruct (redis_set_error env); [now left|].
    cbn [snd emit set_store store]. intros H.
    apply Ins in H as [H|[-> ->]]; [now left|].
    right. exists resp, s. auto.
Qed.

Lemma store_writes_come_from_origin_witness :
  let env := world (answer 200 (blit "[]") "application/json") in
  let key := cache_key (lit "GET") news_path in
  let v := json_dumps (cache_entry (lit "[]") noon) in
  In (EvRedisSet key v)
     (trace (snd (proxy_request (lit "GET") news_path None None env
                    empty_state)))
  /\ exists resp s,
       origin env = Return resp /\ (status_code resp < 400)%Z
       /\ utf8_decode (content resp) = Some s.
Proof.
  cbv zeta.
  assert (H : In (EvRedisSet (cache_key (lit "GET") news_path)
                    (json_dumps (cache_entry (lit "[]") noon)))
                 (trace (snd (proxy_request (lit "GET") news_path None None
                                (world (answer 200 (blit "[]")
                                          "application/json"))
                                empty_state)))).
  { vm_compute. right. right. left. reflexivity. }
  split; [exact H|].
  destruct (store_writes_come_from_origin (lit "GET") news_path
              (cache_key (lit "GET") news_path) None None
              (world (answer 200 (blit "[]") "application/json"))
              empty_state (cache_key (lit "GET") news_path)
              (json_dumps (cache_entry (lit "[]") noon))) as [P _].
  destruct (P H) as [[]|(resp & s & H1 & H2 & H3 & _)].
  exists resp, s. auto.
Defined.

(** A store that cannot be reached costs a request nothing but the
    cache: the read and the write raise, both are logged, and the caller
    gets the answer of the origin. *)
Example unreachable_store_degrades_to_origin :
  let refused := RedisError (lit "Connection refused") in
  let env := {| REGISTRY_URL := registry; redis_get_error := Some refused;
                redis_set_error := Some refused;
                origin := Return (answer 200 (blit "[]") "application/json");
                clock := noon; HTTPStatus := HTTPStatus_phrase |} in
  let key := cache_key (lit "GET") news_path in
  let out := proxy_request (lit "GET") news_path None None env empty_state in
  fst out = Return (Response (blit "[]") (lit "application/json"))
  /\ store (snd out) = ∅
  /\ trace (snd out)
     = [EvRedisGet key; EvPrint (RedisGetError refused);
        EvOriginGet (registry ++ news_path);
        EvRedisSet key (json_dumps (cache_entry (lit "[]") noon));
        EvPrint (RedisSetError refused)].
Proof. cbv zeta. repeat split; vm_compute; reflexivity. Qed.

(** A hit queues one refresh; run afterwards, the refresh overwrites the
    entry with the envelope of what the origin answers then. *)
Example hit_then_refresh :
  let key := cache_key (lit "GET") news_path in
  let old := json_dumps (cache_entry (lit "[1]") noon) in
  let env := world (answer 200 (blit "[1, 2]") "application/json") in
  let out := proxy_request (lit "GET") news_path None None env
               (state_with key old) in
  fst out = Return (Response (blit "[1]") (lit "application/json"))
  /\ trace (snd out) = [EvRedisGet key]
  /\ tasks (snd out) = [refresh key (lit "GET") news_path None None]
  /\ store (snd (run_task (refresh key (lit "GET") news_path None None) env
                   (snd out))) !! key
     = Some (json_dumps (cache_entry (lit "[1, 2]") noon)).
Proof. cbv zeta. repeat split; vm_compute; reflexivity. Qed.

(** A stored value that is JSON but no envelope is an entry of the older
    format and is served: a list is paginated when the request has a
    page and a limit. *)
Example legacy_list_is_paginated :
  let key := cache_key (lit "GET") news_path in
  let env := world (answer 200 (blit "[]") "application/json") in
  let out := proxy_request (lit "GET") news_path (Some 1%Z) (Some 2%Z) env
               (state_with key (lit "[1, 2, 3]")) in
  fst out
  = Return (Value (Page_json {| data := [JInt 1; JInt 2]; total := 3;
                                page := 1; limit := 2; total_pages := 2 |}))
  /\ trace (snd out) = [EvRedisGet key].
Proof. cbv zeta. split; vm_compute; reflexivity. Qed.

(** C5.  The miss path stores what the refresh refuses.  The origin
    answers 302, which is outside the 2xx range: [proxy_request], whose
    only guard is the [>= 400] of [forward_request], writes the body to
    the store; [update_cache_from_origin], which asks for [== 200],
    calls the same origin for the same key and writes nothing. *)
Theorem redirect_is_cached_on_the_miss_path :
  let key := cache_key (lit "GET") news_path in
  let env := world (answer 302 (blit "moved") "text/html") in
  let out := proxy_request (lit "GET") news_path None None env empty_state in
  let bg := update_cache_from_origin key (lit "GET") news_path None None env
              empty_state in
  ~ (200 <= 302 < 300)%Z
  /\ fst out = Return (Response (blit "moved") (lit "application/json"))
  /\ store (snd out) !! key = Some (json_dumps (cache_entry (lit "moved") noon))
  /\ trace (snd out)
     = [EvRedisGet key; EvOriginGet (registry ++ news_path);
        EvRedisSet key (json_dumps (cache_entry (lit "moved") noon))]
  /\ store (snd bg) !! key = None
  /\ trace (snd bg) = [EvOriginGet (registry ++ news_path)].
Proof.
  cbv zeta. split; [lia|]. repeat split; vm_compute; reflexivity.
Qed.

(** ** The endpoint *)

(** C8 fails when the caller leaves [limit] out: the default of the
    endpoint is 50, it does not go through [PageLimit], which would
    refuse it, and [limit=50] is what the origin is asked for. *)
Theorem default_limit_exceeds_bound :
  let env := world (answer 200 (blit "[]") "application/json") in
  let out := api_requests no_query env empty_state in
  PageLimit 50 = Raise ValueError
  /\ fst out = Return (Response (blit "[]") (lit "application/json"))
  /\ trace (snd out)
     = [EvRedisGet
          (lit "GET:/api/requests?page=1&limit=50&sort_by=default&order=desc");
        EvOriginGet
          (registry
           ++ lit "/api/requests?page=1&limit=50&sort_by=default&order=desc");
        EvRedisSet
          (lit "GET:/api/requests?page=1&limit=50&sort_by=default&order=desc")
          (json_dumps (cache_entry (lit "[]") noon))].
Proof. cbv zeta. repeat split; vm_compute; reflexivity. Qed.

(** A [limit] that goes through [PageLimit] is within the bound. *)
Lemma PageLimit_bound (l l' : Z) :
  PageLimit l = Return l' -> l' = l /\ (1 <= l <= 25)%Z.
Proof.
  unfold PageLimit.
  destruct (Z.leb_spec 1 l), (Z.leb_spec l 25); cbn [andb];
    try discriminate. intros [= <-]. lia.
Qed.

(** ** The cache key of [/api/requests] *)

Lemma split_at_amp (a a' t t' : pystr) :
  amp_free a = true -> amp_free a' = true -> amp_tail t -> amp_tail t' ->
  a ++ t = a' ++ t' -> a = a' /\ t = t'.
Proof.
  revert a'. induction a as [|x a IH]; intros [|y a'] Ha Ha' Ht Ht' E;
    cbn [app] in E.
  - now split.
  - subst t. cbn in Ht, Ha'. subst y. discriminate.
  - subst t'. cbn in Ht', Ha. subst x. discriminate.
  - injection E as <- E. cbn [amp_free forallb] in Ha, Ha'.
    apply andb_prop in Ha as [_ Ha]. apply andb_prop in Ha' as [_ Ha'].
    destruct (IH a' Ha Ha' Ht Ht' E) as [-> ->]. now split.
Qed.

Lemma uint_digits_inj (u u' : Decimal.uint) :
  uint_digits u = uint_digits u' -> u = u'.
Proof.
  revert u'. induction u as [|u IH|u IH|u IH|u IH|u IH|u IH|u IH|u IH|u IH|u IH];
    intros [|u'|u'|u'|u'|u'|u'|u'|u'|u'|u']; cbn [uint_digits];
    try discriminate; try reflexivity;
    intros [= H]; f_equal; now apply IH.
Qed.

Lemma digit_not_special (c : N) :
  is_digit c = true -> c <> 38 /\ c <> 45.
Proof. unfold is_digit. intros H. bool_hyps. lia. Qed.

Lemma uint_digits_amp_free (u : Decimal.uint) :
  amp_free (uint_digits u) = true.
Proof.
  unfold amp_free. apply forallb_forall. intros c Hc.
  pose proof (uint_digits_digit u) as Hd.
  rewrite List.Forall_forall in Hd. apply Hd, digit_not_special in Hc.
  apply negb_true_iff, N.eqb_neq. tauto.
Qed.

Lemma str_int_amp_free (z : Z) : amp_free (str_int z) = true.
Proof.
  unfold str_int. destruct (Z.to_int z); [apply uint_digits_amp_free|].
  cbn [amp_free forallb]. change (negb (45 =? 38)) with true.
  apply uint_digits_amp_free.
Qed.

(** [str] is injective on [int]. *)
Lemma str_int_inj (z z' : Z) : str_int z = str_int z' -> z = z'.
Proof.
  unfold str_int. intros H. apply DecimalZ.to_int_inj.
  destruct (Z.to_int z) as [u|u], (Z.to_int z') as [u'|u'].
  - f_equal. now apply uint_digits_inj.
  - exfalso. pose proof (uint_digits_digit u) as Hd. rewrite H in Hd.
    inversion Hd as [|? ? Hc]. now apply digit_not_special in Hc.
  - exfalso. pose proof (uint_digits_digit u') as Hd. rewrite <- H in Hd.
    inversion Hd as [|? ? Hc]. now apply digit_not_special in Hc.
  - injection H as H. f_equal. now apply uint_digits_inj.
Qed.

Lemma add_filter_segment (path name : pystr) (value : option pystr) :
  add_filter path name value = path ++ filter_segment name value.
Proof.
  unfold add_filter, filter_segment.
  destruct value as [[|c cs]|]; now rewrite ?app_nil_r.
Qed.

Lemma filter_segment_amp_tail (name : pystr) (value : option pystr)
    (t : pystr) :
  amp_tail t -> amp_tail (filter_segment name value ++ t).
Proof.
  intros Ht. unfold filter_segment. destruct value as [[|c cs]|]; auto.
  reflexivity.
Qed.

Lemma strip_prefix_app (p r : pystr) : strip_prefix p (p ++ r) = Some r.
Proof.
  induction p as [|c p IH]; cbn [app strip_prefix]; [now destruct r|].
  now rewrite N.eqb_refl.
Qed.

(** Two filters of one name followed by texts that do not begin with a
    filter of that name: equal texts have equal filters. *)
Lemma filter_segment_inj (name : pystr) (v v' : option pystr) (t t' : pystr) :
  amp_free_opt v = true -> amp_free_opt v' = true ->
  amp_tail t -> amp_tail t' ->
  strip_prefix (lit "&" ++ name ++ lit "=") t = None ->
  strip_prefix (lit "&" ++ name ++ lit "=") t' = None ->
  filter_segment name v ++ t = filter_segment name v' ++ t' ->
  present v = present v' /\ t = t'.
Proof.
  intros Hv Hv' Ht Ht' Hs Hs' E.
  assert (P : forall c cs r,
             strip_prefix (lit "&" ++ name ++ lit "=")
               ((lit "&" ++ name ++ lit "=" ++ c :: cs) ++ r) <> None).
  { intros c cs r.
    replace ((lit "&" ++ name ++ lit "=" ++ c :: cs) ++ r)
      with ((lit "&" ++ name ++ lit "=") ++ (c :: cs) ++ r)
      by now rewrite <- !app_assoc.
    now rewrite strip_prefix_app. }
  unfold filter_segment in E.
  destruct v as [[|c cs]|], v' as [[|c' cs']|]; cbn [app present] in *;
    try (now split);
    try (rewrite <- E in Hs'; now destruct (P c cs t));
    try (rewrite E in Hs; now destruct (P c' cs' t')).
  rewrite <- !app_assoc in E.
  do 3 apply app_inv_head in E.
  change ((c :: cs) ++ t = (c' :: cs') ++ t') in E.
  destruct (split_at_amp _ _ _ _ Hv Hv' Ht Ht' E) as [-> ->]. now split.
Qed.

Lemma requests_path_segments (page limit : Z)
    (status search region : option pystr) (sort_by order : pystr) :
  requests_path page limit status search region sort_by order
  = lit "/api/requests?page=" ++ str_int page
    ++ lit "&limit=" ++ str_int limit
    ++ lit "&sort_by=" ++ sort_by
    ++ lit "&order=" ++ order
    ++ filter_segment (lit "status") status
    ++ filter_segment (lit "search") search
    ++ filter_segment (lit "region") region ++ [].
Proof.
  unfold requests_path. cbv zeta. rewrite !add_filter_segment.
  now rewrite <- !app_assoc, app_nil_r.
Qed.

Lemma no_other_filter (name other1 other2 : string) (v1 v2 : option pystr) :
  (forall r, strip_prefix (lit "&" ++ lit name ++ lit "=")
               (lit "&" ++ lit other1 ++ lit "=" ++ r) = None) ->
  (forall r, strip_prefix (lit "&" ++ lit name ++ lit "=")
               (lit "&" ++ lit other2 ++ lit "=" ++ r) = None) ->
  strip_prefix (lit "&" ++ lit name ++ lit "=")
    (filter_segment (lit other1) v1 ++ filter_segment (lit other2) v2 ++ [])
  = None.
Proof.
  intros H1 H2. unfold filter_segment.
  destruct v1 as [[|c cs]|], v2 as [[|c' cs']|]; cbn [app];
    rewrite <- ?app_assoc; try apply H1; try apply H2; reflexivity.
Qed.

(** C6 (as amended).  The cache key is a function of the parameters, and
    two calls of [/api/requests] whose text parameters hold no [&] have
    the same key only if they agree on [page], [limit], [sort_by] and
    [order] and on each of the filters [status], [search] and [region],
    where an empty filter counts as a filter left out. *)
Theorem cache_key_distinguishes_queries (page limit page' limit' : Z)
    (status search region status' search' region' : option pystr)
    (sort_by order sort_by' order' : pystr) :
  let key := cache_key (lit "GET")
               (requests_path page limit status search region sort_by order) in
  let key' := cache_key (lit "GET")
                (requests_path page' limit' status' search' region'
                   sort_by' order') in
  amp_free sort_by = true -> amp_free order = true ->
  amp_free sort_by' = true -> amp_free order' = true ->
  amp_free_opt status = true -> amp_free_opt search = true ->
  amp_free_opt region = true -> amp_free_opt status' = true ->
  amp_free_opt search' = true -> amp_free_opt region' = true ->
  ((page, limit, sort_by, order, status, search, region)
   = (page', limit', sort_by', order', status', search', region') ->
   key = key')
  /\ (key = key' ->
      page = page' /\ limit = limit' /\ sort_by = sort_by' /\ order = order'
      /\ present status = present status'
      /\ present search = present search'
      /\ present region = present region').
Proof.
  intros key key' Hs Ho Hs' Ho' H1 H2 H3 H1' H2' H3'. split.
  { intros [= -> -> -> -> -> -> ->]. reflexivity. }
  subst key key'. unfold cache_key. rewrite !requests_path_segments.
  intros E. do 3 apply app_inv_head in E.
  apply split_at_amp in E as [Ep E];
    [|apply str_int_amp_free|apply str_int_amp_free|reflexivity|reflexivity].
  apply app_inv_head in E.
  apply split_at_amp in E as [El E];
    [|apply str_int_amp_free|apply str_int_amp_free|reflexivity|reflexivity].
  apply app_inv_head in E.
  apply split_at_amp in E as [Esb E]; [|assumption|assumption|reflexivity..].
  apply app_inv_head in E.
  apply split_at_amp in E as [Eo E];
    [|assumption|assumption|repeat apply filter_segment_amp_tail; exact I..].
  apply filter_segment_inj in E as [E1 E];
    [|assumption|assumption
     |repeat apply filter_segment_amp_tail; exact I
     |repeat apply filter_segment_amp_tail; exact I
     |apply (no_other_filter "status" "search" "region"); reflexivity..].
  apply filter_segment_inj in E as [E2 E];
    [|assumption|assumption
     |repeat apply filter_segment_amp_tail; exact I
     |repeat apply filter_segment_amp_tail; exact I
     |destruct region as [[|? ?]|]; reflexivity
     |destruct region' as [[|? ?]|]; reflexivity].
  apply filter_segment_inj in E as [E3 _];
    [|assumption|assumption|exact I|exact I|reflexivity|reflexivity].
  repeat split; auto using str_int_inj.
Qed.

Lemma cache_key_distinguishes_queries_witness :
  cache_key (lit "GET")
    (requests_path 1 10 (Some (lit "open")) None None (lit "default")
       (lit "desc"))
  <> cache_key (lit "GET")
       (requests_path 2 10 (Some (lit "open")) None None (lit "default")
          (lit "desc")).
Proof.
  intros E.
  destruct (cache_key_distinguishes_queries 1 10 2 10
              (Some (lit "open")) None None (Some (lit "open")) None None
              (lit "default") (lit "desc") (lit "default") (lit "desc"))
    as [_ H]; try reflexivity.
  destruct (H E) as [Hp _]. discriminate Hp.
Defined.

(** C6 (as stated) fails in two ways.  A value may hold [&]: the calls
    with [sort_by = "a&order=b"], [order = "c"] and with [sort_by = "a"],
    [order = "b&order=c"] pass the validator and have one key.  And an
    empty filter is left out of the path: the call with [status] empty
    and the call without [status] have one key. *)
Lemma cache_key_collision_counterexample :
  SafeString (lit "a&order=b") = Return (lit "a&order=b")
  /\ SafeString (lit "b&order=c") = Return (lit "b&order=c")
  /\ cache_key (lit "GET")
       (requests_path 1 10 None None None (lit "a&order=b") (lit "c"))
     = cache_key (lit "GET")
         (requests_path 1 10 None None None (lit "a") (lit "b&order=c"))
  /\ lit "a&order=b" <> lit "a"
  /\ SafeString [] = Return []
  /\ cache_key (lit "GET")
       (requests_path 1 10 (Some []) None None (lit "default") (lit "desc"))
     = cache_key (lit "GET")
         (requests_path 1 10 None None None (lit "default") (lit "desc")).
Proof. repeat split; try (vm_compute; reflexivity). discriminate. Qed.

(** * Further properties of the code *)

(** ** [paginate_data]: the pages of a list *)

Lemma page_data_take_drop {A : Type} (items : list A) (page limit : Z) :
  (1 <= page)%Z -> (1 <= limit)%Z ->
  page_data items page limit
  = take (Z.to_nat limit) (drop (Z.to_nat ((page - 1) * limit)) items).
Proof.
  intros Hp Hl. unfold page_data, paginate_data. cbv zeta.
  destruct (Z.eqb_spec limit 0) as [E0|E0]; [lia|]. cbn [data].
  apply py_slice_inside; nia.
Qed.

Lemma pages_concat {A : Type} (items : list A) (limit : Z) (n : nat) :
  (1 <= limit)%Z ->
  concat (map (fun p : nat => page_data items (Z.of_nat p) limit) (seq 1 n))
  = take (n * Z.to_nat limit) items.
Proof.
  intros Hl. induction n as [|n IH]; [reflexivity|].
  rewrite seq_S, map_app, concat_app, IH. cbn [map concat].
  rewrite app_nil_r, page_data_take_drop by lia.
  replace (Z.to_nat ((Z.of_nat (1 + n) - 1) * limit))
    with (n * Z.to_nat limit)%nat by nia.
  rewrite take_take_drop. f_equal. lia.
Qed.

(** X1. The pages of a list partition it: for a positive limit, the
    elements of the pages 1 to [total_pages], one after the other, are
    the list. *)
Theorem pages_partition_the_list {A : Type} (items : list A) (page limit : Z)
    (pg : Page A) :
  (1 <= limit)%Z ->
  paginate_data items page limit = Return pg ->
  concat (map (fun p : nat => page_data items (Z.of_nat p) limit)
            (seq 1 (Z.to_nat (total_pages pg))))
  = items.
Proof.
  intros Hl H. unfold paginate_data in H. cbv zeta in H.
  destruct (Z.eqb_spec limit 0) as [E0|E0]; [lia|]. injection H as <-. cbn [total_pages].
  rewrite pages_concat by assumption. apply take_ge.
  pose proof (Z.div_mod (Z.of_nat (length items) + limit - 1) limit) as D.
  pose proof (Z.mod_pos_bound (Z.of_nat (length items) + limit - 1) limit).
  nia.
Qed.

Lemma pages_partition_the_list_witness :
  concat (map (fun p : nat => page_data [1; 2; 3; 4; 5; 6; 7]%Z (Z.of_nat p) 3)
            (seq 1 3))
  = [1; 2; 3; 4; 5; 6; 7]%Z.
Proof.
  apply (pages_partition_the_list [1; 2; 3; 4; 5; 6; 7]%Z 2 3
           {| data := [4; 5; 6]%Z; total := 7; page := 2; limit := 3;
              total_pages := 3 |}); [lia|reflexivity].
Defined.

(** X2. On a 1-based page with a positive limit, a page never holds more
    than [limit] elements, every page before the last holds exactly
    [limit], and a page holds an element exactly when its number is at
    most [total_pages]: a page past the end is empty, not an error. *)
Theorem page_sizes {A : Type} (items : list A) (page limit : Z) (pg : Page A) :
  (1 <= page)%Z -> (1 <= limit)%Z ->
  paginate_data items page limit = Return pg ->
  (Z.of_nat (length (data pg)) <= limit)%Z
  /\ ((page < total_pages pg)%Z -> Z.of_nat (length (data pg)) = limit)
  /\ (data pg <> [] <-> (page <= total_pages pg)%Z).
Proof.
  intros Hp Hl H.
  assert (Hd : data pg = page_data items page limit)
    by (unfold page_data; now rewrite H).
  rewrite page_data_take_drop in Hd by assumption.
  unfold paginate_data in H. cbv zeta in H.
  destruct (Z.eqb_spec limit 0) as [E0|E0]; [lia|]. injection H as <-.
  cbn [total_pages data] in *.
  set (n := Z.of_nat (length items)).
  pose proof (Z.div_mod (n + limit - 1) limit) as D.
  pose proof (Z.mod_pos_bound (n + limit - 1) limit).
  set (tp := ((n + limit - 1) / limit)%Z) in *.
  assert (Hlen : length (py_slice items ((page - 1) * limit)
                           ((page - 1) * limit + limit))
                 = (Z.to_nat limit
                    `min` (length items - Z.to_nat ((page - 1) * limit)))%nat).
  { rewrite Hd. now rewrite length_take, length_drop. }
  split; [|split].
  - rewrite Hlen. lia.
  - intros Hlt. rewrite Hlen. subst n. nia.
  - rewrite <- length_zero_iff_nil, Hlen. subst n. split; intros; nia.
Qed.

Lemma page_sizes_witness :
  page_data [1; 2; 3; 4; 5; 6; 7]%Z 4 3 = []
  /\ ([7%Z] <> [] <-> (3 <= 3)%Z).
Proof.
  split; [reflexivity|].
  apply (page_sizes [1; 2; 3; 4; 5; 6; 7]%Z 3 3
           {| data := [7%Z]; total := 7; page := 3; limit := 3;
              total_pages := 3 |}); [lia|lia|reflexivity].
Defined.

(** ** [forward_request]: what it touches, and the parsed mode *)

Lemma resp_json_raises (resp : httpx_Response) (e : exn) :
  resp_json resp = Raise e -> e = JSONDecodeError \/ e = UnicodeDecodeError.
Proof.
  unfold resp_json, json_loads_bytes.
  destruct (decode_surrogatepass _ _); [|intros [= <-]; now right].
  destruct (json_loads _); [discriminate|]. intros [= <-]. now left.
Qed.

(** X3. [forward_request] reads and writes no cache entry and queues no
    task; it calls the origin once, at the configured address followed
    by the path, when the method is GET, and not at all otherwise. *)
Theorem forward_request_effects (method path : pystr) (raw : bool) (env : Env)
    (st : State) :
  let out := forward_request method path raw env st in
  store (snd out) = store st
  /\ tasks (snd out) = tasks st
  /\ trace (snd out)
     = trace st ++ (if decide (method = lit "GET")
                    then [EvOriginGet (REGISTRY_URL env ++ path)]
                    else []).
Proof.
  cbv zeta. unfold forward_request, try_except, bind, registry_url, client_get,
    raise, raise_HTTPException, ret, lift.
  destruct (decide (method = lit "GET")) as [->|N].
  - destruct (origin env) as [resp|e].
    + destruct (400 <=? status_code resp)%Z.
      { destruct (HTTPException_of_cases (HTTPStatus env) (status_code resp)
                    (error_detail resp)) as [[d ->]| ->]; now repeat split. }
      destruct raw; [now repeat split|].
      destruct (resp_json resp) as [v|e] eqn:E; [now repeat split|].
      apply resp_json_raises in E as [->| ->]; now repeat split.
    + destruct e; now repeat split.
  - cbn [snd store tasks trace]. now rewrite app_nil_r.
Qed.

(** X4. Without [raw], a GET that the origin answers below 400 returns
    what [json.loads] makes of the bytes of the body (UTF-8, UTF-16 or
    UTF-32 as [detect_encoding] finds, surrogates passing); when the
    body is not JSON the error of the decoder escapes as it is: it is
    not turned into an [HTTPException]. *)
Theorem forward_request_parsed (path : pystr) (env : Env) (st : State)
    (resp : httpx_Response) :
  origin env = Return resp -> (status_code resp < 400)%Z ->
  let r := fst (forward_request (lit "GET") path false env st) in
  match resp_json resp with
  | Return v => r = Return (Parsed v)
  | Raise e => r = Raise e /\ (e = JSONDecodeError \/ e = UnicodeDecodeError)
  end.
Proof.
  intros Ho Hs. cbv zeta.
  unfold forward_request, try_except, bind, registry_url, client_get, raise,
    ret, lift.
  destruct (decide (lit "GET" = lit "GET")) as [_|N]; [|congruence].
  rewrite Ho. destruct (Z.leb_spec 400 (status_code resp)); [lia|].
  destruct (resp_json resp) as [v|e] eqn:E; [reflexivity|].
  pose proof (resp_json_raises _ _ E) as [->| ->]; split; auto.
Qed.

Lemma forward_request_parsed_witness :
  let quoted b := [x22] ++ b ++ [x22] in
  let utf16 := [xff; xfe; x5b; x00; x31; x00; x5d; x00] in
  fst (forward_request (lit "GET") news_path false
         (world (answer 200 (blit "[1, 2]") "application/json")) empty_state)
  = Return (Parsed (JArr [JInt 1; JInt 2]))
  /\ fst (forward_request (lit "GET") news_path false
            (world (answer 200 (quoted [xed; xa0; x80]) "application/json"))
            empty_state)
     = Return (Parsed (JStr [0xD800]))
  /\ fst (forward_request (lit "GET") news_path false
            (world (answer 200 utf16 "application/json")) empty_state)
     = Return (Parsed (JArr [JInt 1]))
  /\ exists e,
       fst (forward_request (lit "GET") news_path false
              (world (answer 200 (blit "<html>") "text/html")) empty_state)
       = Raise e /\ (e = JSONDecodeError \/ e = UnicodeDecodeError).
Proof.
  cbv zeta. split; [|split; [|split]].
  - exact (forward_request_parsed news_path
             (world (answer 200 (blit "[1, 2]") "application/json"))
             empty_state (answer 200 (blit "[1, 2]") "application/json")
             eq_refl eq_refl).
  - exact (forward_request_parsed news_path
             (world (answer 200 ([x22] ++ [xed; xa0; x80] ++ [x22])
                       "application/json"))
             empty_state
             (answer 200 ([x22] ++ [xed; xa0; x80] ++ [x22])
                "application/json")
             eq_refl eq_refl).
  - exact (forward_request_parsed news_path
             (world (answer 200
                       [xff; xfe; x5b; x00; x31; x00; x5d; x00]
                       "application/json"))
             empty_state
             (answer 200 [xff; xfe; x5b; x00; x31; x00; x5d; x00]
                "application/json")
             eq_refl eq_refl).
  - exists JSONDecodeError.
    exact (forward_request_parsed news_path
             (world (answer 200 (blit "<html>") "text/html"))
             empty_state (answer 200 (blit "<html>") "text/html")
             eq_refl eq_refl).
Defined.

(** ** [update_cache_from_origin]: the background refresh *)

(** X5. A refresh never raises and queues nothing, whatever the method,
    the origin and the store do; for a method other than GET it does
    nothing at all, and unless the origin answers 200 with a body that
    is valid UTF-8 and the store write succeeds, the store is as it
    was. *)
Theorem refresh_never_raises (key method path : pystr) (page limit : option Z)
    (env : Env) (st : State) :
  let out := update_cache_from_origin key method path page limit env st in
  fst out = Return tt
  /\ tasks (snd out) = tasks st
  /\ (method <> lit "GET" -> snd out = st)
  /\ ((forall resp, origin env = Return resp ->
         status_code resp <> 200%Z \/ utf8_decode (content resp) = None
         \/ is_Some (redis_set_error env)) ->
      store (snd out) = store st).
Proof.
  cbv zeta. destruct (decide (method = lit "GET")) as [->|N].
  2: { rewrite update_cache_from_origin_other by assumption. now repeat split. }
  rewrite update_cache_from_origin_get. cbv zeta.
  destruct (origin env) as [resp|e]; [|now repeat split].
  destruct (Z.eqb_spec (status_code resp) 200) as [E|E]; [|now repeat split].
  destruct (utf8_decode (content resp)) as [s|] eqn:Hd; [|now repeat split].
  destruct (redis_set_error env) as [e|] eqn:He; [now repeat split|].
  split; [reflexivity|]. split; [reflexivity|]. split; [congruence|].
  intros H. destruct (H resp eq_refl) as [H1|[H1|[x H1]]]; congruence.
Qed.

Lemma refresh_never_raises_witness :
  let st := state_with (lit "k") (lit "old") in
  store (snd (update_cache_from_origin (lit "k") (lit "GET") news_path None
                None (world (answer 204 [] "application/json")) st))
  = store st
  /\ snd (update_cache_from_origin (lit "k") (lit "POST") news_path None None
            (world (answer 200 (blit "[]") "application/json")) st)
     = st.
Proof.
  cbv zeta.
  destruct (refresh_never_raises (lit "k") (lit "GET") news_path None None
              (world (answer 204 [] "application/json"))
              (state_with (lit "k") (lit "old"))) as (_ & _ & _ & H).
  destruct (refresh_never_raises (lit "k") (lit "POST") news_path None None
              (world (answer 200 (blit "[]") "application/json"))
              (state_with (lit "k") (lit "old"))) as (_ & _ & H' & _).
  split.
  - apply H. intros resp [= <-]. left. discriminate.
  - apply H'. discriminate.
Defined.

(** ** [proxy_request]: hits *)

Lemma utf8_encode_cp_total (c : N) :
  is_scalar c = true -> exists b, utf8_encode_cp c = Some b.
Proof.
  unfold is_scalar, utf8_encode_cp. intros H.
  apply andb_prop in H as [H1 H2]. apply negb_true_iff in H2.
  rewrite H1, H2. repeat destruct (_ <? _); eauto.
Qed.

(** A [str] without surrogates has a UTF-8 encoding. *)
Lemma utf8_encode_total (s : pystr) :
  Forall (fun c => is_scalar c = true) s -> exists b, utf8_encode s = Some b.
Proof.
  induction 1 as [|c s Hc _ [b Hb]]; [now exists []|].
  destruct (utf8_encode_cp_total c Hc) as [bc Hbc].
  exists (bc ++ b). cbn [utf8_encode]. now rewrite Hbc, Hb.
Qed.

(** A GET whose key holds a cache entry, when the store answers. *)
Lemma proxy_request_hit (path : pystr) (page limit : option Z) (env : Env)
    (st : State) (s : pystr) (now : timestamp) (b : bytes) :
  let key := cache_key (lit "GET") path in
  store st !! key = Some (json_dumps (cache_entry s now)) ->
  Forall (fun c => is_scalar c = true) s ->
  utf8_encode s = Some b ->
  redis_get_error env = None ->
  proxy_request (lit "GET") path page limit env st
  = (Return (Response b (lit "application/json")),
     push_task (refresh key (lit "GET") path page limit)
       (emit (EvRedisGet key) st)).
Proof.
  intros key Hk Hs Hb Hg.
  rewrite proxy_request_get, cache_lookup_get. cbv zeta. fold key.
  rewrite Hg, Hk.
  assert (Hne : exists c cs, json_dumps (cache_entry s now) = c :: cs)
    by (rewrite json_dumps_cache_entry; eauto).
  destruct Hne as (c & cs & Hne). rewrite Hne, <- Hne.
  unfold loads. rewrite json_loads_cache_entry by assumption.
  now rewrite (serve_cached_entry s now page limit b Hb).
Qed.

(** X6. A GET whose key holds a cache entry is a hit when the store
    answers: the caller gets the payload of the entry as
    [application/json], one refresh of the key is queued with the
    arguments of the request, the store is only read, and the origin is
    not called; the origin, the clock and the store write play no
    role. *)
Theorem hit_serves_entry_and_queues_refresh (path : pystr)
    (page limit : option Z) (env : Env) (st : State) (v : pystr) :
  let key := cache_key (lit "GET") path in
  store st !! key = Some v -> envelope v -> redis_get_error env = None ->
  let out := proxy_request (lit "GET") path page limit env st in
  (exists s now b,
     v = json_dumps (cache_entry s now) /\ utf8_encode s = Some b
     /\ fst out = Return (Response b (lit "application/json")))
  /\ store (snd out) = store st
  /\ tasks (snd out) = tasks st ++ [refresh key (lit "GET") path page limit]
  /\ trace (snd out) = trace st ++ [EvRedisGet key].
Proof.
  intros key Hk (s & now & Hs & ->) Hg.
  destruct (utf8_encode_total s Hs) as [b Hb]. cbv zeta.
  rewrite (proxy_request_hit path page limit env st s now b Hk Hs Hb Hg).
  split; [|now repeat split]. now exists s, now, b.
Qed.

Lemma hit_serves_entry_and_queues_refresh_witness :
  let key := cache_key (lit "GET") news_path in
  let st := state_with key (json_dumps (cache_entry (lit "[7]") noon)) in
  let env := {| REGISTRY_URL := registry; redis_get_error := None;
                redis_set_error := Some (RedisError (lit "read only"));
                origin := Raise (RequestError (lit "timed out"));
                clock := noon; HTTPStatus := HTTPStatus_phrase |} in
  trace (snd (proxy_request (lit "GET") news_path None None env st))
  = [EvRedisGet key].
Proof.
  cbv zeta.
  refine (proj2 (proj2 (proj2
    (hit_serves_entry_and_queues_refresh news_path None None
       {| REGISTRY_URL := registry; redis_get_error := None;
          redis_set_error := Some (RedisError (lit "read only"));
          origin := Raise (RequestError (lit "timed out"));
          clock := noon; HTTPStatus := HTTPStatus_phrase |}
       (state_with (cache_key (lit "GET") news_path)
          (json_dumps (cache_entry (lit "[7]") noon)))
       (json_dumps (cache_entry (lit "[7]") noon)) _ _ _)))).
  - reflexivity.
  - exists (lit "[7]"), noon. split; [apply lit_scalar|reflexivity].
  - reflexivity.
Defined.

(** X7. A refresh that succeeds makes the next GET of its key a hit with
    the body of the origin: after [update_cache_from_origin] for the key
    of a path, with an origin that answers 200 with a body that is valid
    UTF-8 and a store that takes the write, the entry of the key is the
    envelope of that body, whatever it was before, and a GET of the path
    returns that body byte for byte. *)
Theorem refresh_then_hit (path : pystr) (page limit page' limit' : option Z)
    (env env' : Env) (st : State) (resp : httpx_Response) (s : pystr) :
  let key := cache_key (lit "GET") path in
  origin env = Return resp -> status_code resp = 200%Z ->
  utf8_decode (content resp) = Some s ->
  redis_set_error env = None -> redis_get_error env' = None ->
  let st1 := snd (update_cache_from_origin key (lit "GET") path page limit
                    env st) in
  store st1 = <[key := json_dumps (cache_entry s (clock env))]> (store st)
  /\ fst (proxy_request (lit "GET") path page' limit' env' st1)
     = Return (Response (content resp) (lit "application/json")).
Proof.
  intros key Ho Hs Hd Hset Hget. cbv zeta.
  rewrite update_cache_from_origin_get. cbv zeta.
  rewrite Ho, Hs, Hd, Hset. cbn [Z.eqb Pos.eqb snd emit set_store store].
  split; [reflexivity|].
  rewrite (proxy_request_hit path page' limit' env' _ s (clock env)
             (content resp)); [reflexivity| | | |assumption].
  - cbn [store emit set_store]. apply lookup_insert_eq.
  - now apply utf8_decode_scalar with (content resp).
  - now apply utf8_encode_decode.
Qed.

Lemma refresh_then_hit_witness :
  let key := cache_key (lit "GET") news_path in
  let env := world (answer 200 (blit "[1, 2]") "application/json") in
  let st1 := snd (update_cache_from_origin key (lit "GET") news_path None None
                    env (state_with key (lit "stale"))) in
  fst (proxy_request (lit "GET") news_path None None env st1)
  = Return (Response (blit "[1, 2]") (lit "application/json")).
Proof.
  cbv zeta.
  apply (refresh_then_hit news_path None None None None
           (world (answer 200 (blit "[1, 2]") "application/json"))
           (world (answer 200 (blit "[1, 2]") "application/json"))
           (state_with (cache_key (lit "GET") news_path) (lit "stale"))
           (answer 200 (blit "[1, 2]") "application/json") (lit "[1, 2]"));
    reflexivity.
Defined.

(** ** [proxy_request]: every case at once *)

(** The cases of a GET: the lookup, then the origin. *)
Ltac proxy_cases env st :=
  rewrite proxy_request_get, cache_lookup_get; cbv zeta;
  destruct (redis_get_error env) as [eget|] eqn:Hget;
  [|destruct (store st !! _) as [[|c0 cs0]|] eqn:Hkey;
    [|destruct (loads _) as [obj|eload] eqn:Hload;
      [destruct (serve_cached _ _ _) as [served|eserve] eqn:Hserve|]|]];
  try (rewrite fetch_and_store_get; cbv zeta;
       destruct (origin env) as [resp|eorigin] eqn:Horigin;
       [destruct (400 <=? status_code resp)%Z eqn:H400;
        [|destruct (utf8_decode (content resp)) as [body|] eqn:Hbody;
          [destruct (redis_set_error env) as [eset|] eqn:Hset|]]
       |destruct eorigin]).

(** The store after a request is the store before it, or that with the
    envelope of the body of the origin under the key of the request. *)
Lemma proxy_request_store (method path : pystr) (page limit : option Z)
    (env : Env) (st : State) :
  let out := proxy_request method path page limit env st in
  store (snd out) = store st
  \/ exists resp s,
       origin env = Return resp /\ utf8_decode (content resp) = Some s
       /\ store (snd out)
          = <[cache_key method path := json_dumps (cache_entry s (clock env))]>
              (store st).
Proof.
  cbv zeta. destruct (decide (method = lit "GET")) as [->|N].
  2: { rewrite proxy_request_other by assumption. now left. }
  proxy_cases env st; try (now left); right; exists resp, body; auto.
Qed.

Lemma update_cache_from_origin_store (key method path : pystr)
    (page limit : option Z) (env : Env) (st : State) :
  let out := update_cache_from_origin key method path page limit env st in
  store (snd out) = store st
  \/ exists resp s,
       origin env = Return resp /\ utf8_decode (content resp) = Some s
       /\ store (snd out)
          = <[key := json_dumps (cache_entry s (clock env))]> (store st).
Proof.
  cbv zeta. destruct (decide (method = lit "GET")) as [->|N].
  2: { rewrite update_cache_from_origin_other by assumption. now left. }
  rewrite update_cache_from_origin_get. cbv zeta.
  destruct (origin env) as [resp|e]; [|now left].
  destruct (status_code resp =? 200)%Z; [|now left].
  destruct (utf8_decode (content resp)) as [s|] eqn:Hd; [|now left].
  destruct (redis_set_error env); [now left|].
  right. exists resp, s. auto.
Qed.

(** X8. Whatever [proxy_request] raises comes from the method or from
    the origin: a 405 for a method other than GET; for an answer of the
    origin with status 400 or more, what [HTTPException] with that
    status and the detail of the answer raises; a 503 when the origin
    cannot be reached; or the exception of the origin call as it is.  No
    failure of the store and no value in the store makes [proxy_request]
    raise.  (What becomes of a plain value that it returns from the
    cache is the framework's to decide, see [content_type_of].) *)
Theorem request_errors_come_from_origin (method path : pystr)
    (page limit : option Z) (env : Env) (st : State) (e : exn) :
  fst (proxy_request method path page limit env st) = Raise e ->
  (method <> lit "GET"
   /\ e = HTTPException 405 (JStr (lit "Method not allowed")))
  \/ (exists resp,
        origin env = Return resp /\ (400 <= status_code resp)%Z
        /\ e = HTTPException_of (HTTPStatus env) (status_code resp)
                 (error_detail resp))
  \/ (exists msg,
        origin env = Raise (RequestError msg)
        /\ e = HTTPException 503
                 (JStr (lit "Upstream server unavailable: " ++ msg)))
  \/ origin env = Raise e.
Proof.
  destruct (decide (method = lit "GET")) as [->|N].
  2: { rewrite proxy_request_other by assumption. intros [= <-]. now left. }
  intros H. right. revert H.
  proxy_cases env st; cbn [fst]; intros [= <-];
    try (left; exists resp; split; [reflexivity|]; split; [lia|reflexivity]);
    try (right; left; eexists; split; reflexivity);
    right; right; reflexivity.
Qed.

Lemma request_errors_come_from_origin_witness :
  let env := world (answer 404 not_found_body "application/json") in
  exists resp,
    origin env = Return resp /\ (400 <= status_code resp)%Z
    /\ HTTPException 404 (JStr (lit "not found"))
       = HTTPException_of (HTTPStatus env) (status_code resp)
           (error_detail resp).
Proof.
  cbv zeta.
  destruct (request_errors_come_from_origin (lit "GET") news_path None None
              (world (answer 404 not_found_body "application/json"))
              empty_state (HTTPException 404 (JStr (lit "not found")))
              eq_refl) as [[N _]|[H|[[msg [H _]]|H]]].
  - now contradiction N.
  - exact H.
  - discriminate H.
  - discriminate H.
Defined.

(** X9. A request and a refresh leave every entry of the store but
    their own as it is: [proxy_request] can change the entry of
    [cache_key method path] only, [update_cache_from_origin] the entry of
    the key it is given only. *)
Theorem other_keys_untouched (key method path : pystr) (page limit : option Z)
    (env : Env) (st : State) (k : pystr) :
  (k <> cache_key method path ->
   store (snd (proxy_request method path page limit env st)) !! k
   = store st !! k)
  /\ (k <> key ->
      store (snd (update_cache_from_origin key method path page limit env st))
        !! k
      = store st !! k).
Proof.
  split; intros N.
  - destruct (proxy_request_store method path page limit env st)
      as [->|(resp & s & _ & _ & ->)]; [reflexivity|].
    now apply lookup_insert_ne.
  - destruct (update_cache_from_origin_store key method path page limit env st)
      as [->|(resp & s & _ & _ & ->)]; [reflexivity|].
    now apply lookup_insert_ne.
Qed.

Lemma other_keys_untouched_witness :
  let env := world (answer 200 (blit "[]") "application/json") in
  let st := state_with (lit "GET:/api/phones") (lit "kept") in
  store (snd (proxy_request (lit "GET") news_path None None env st))
    !! lit "GET:/api/phones" = Some (lit "kept")
  /\ store (snd (update_cache_from_origin (lit "GET:/api/news") (lit "GET")
                   news_path None None env st))
       !! lit "GET:/api/phones" = Some (lit "kept").
Proof.
  cbv zeta.
  destruct (other_keys_untouched (lit "GET:/api/news") (lit "GET") news_path
              None None (world (answer 200 (blit "[]") "application/json"))
              (state_with (lit "GET:/api/phones") (lit "kept"))
              (lit "GET:/api/phones")) as [H1 H2].
  split.
  - rewrite H1 by discriminate. reflexivity.
  - rewrite H2 by discriminate. reflexivity.
Defined.

(** X10. One request costs at most one read of the store, one call of
    the origin and one write of the store, and queues at most one
    refresh; a refresh costs at most one call of the origin and one
    write, and never reads the store. *)
Theorem request_cost_is_bounded (key method path : pystr)
    (page limit : option Z) (env : Env) (st : State) :
  (exists new,
     let out := proxy_request method path page limit env st in
     trace (snd out) = trace st ++ new
     /\ (count is_redis_get new <= 1)%nat
     /\ (count is_origin_get new <= 1)%nat
     /\ (count is_redis_set new <= 1)%nat
     /\ exists queued, tasks (snd out) = tasks st ++ queued
                       /\ (length queued <= 1)%nat)
  /\ exists new,
       let out := update_cache_from_origin key method path page limit env st in
       trace (snd out) = trace st ++ new
       /\ count is_redis_get new = 0%nat
       /\ (count is_origin_get new <= 1)%nat
       /\ (count is_redis_set new <= 1)%nat.
Proof.
  split.
  - destruct (decide (method = lit "GET")) as [->|N].
    2: { rewrite proxy_request_other by assumption. exists [].
         cbn. rewrite app_nil_r. repeat split; try lia.
         exists []. rewrite app_nil_r. split; [reflexivity|cbn; lia]. }
    proxy_cases env st;
      cbn [snd emit push_task set_store trace tasks];
      rewrite <- ?app_assoc; cbn [app];
      (eexists; split; [reflexivity|]; cbn;
       split; [lia|]; split; [lia|]; split; [lia|];
       first [ exists []; rewrite app_nil_r; split; [reflexivity|cbn; lia]
             | eexists; split; [reflexivity|cbn; lia] ]).
  - destruct (decide (method = lit "GET")) as [->|N].
    2: { rewrite update_cache_from_origin_other by assumption. exists [].
         cbn. rewrite app_nil_r. repeat split; lia. }
    rewrite update_cache_from_origin_get. cbv zeta.
    destruct (origin env) as [resp|e];
      [destruct (status_code resp =? 200)%Z;
       [destruct (utf8_decode (content resp));
        [destruct (redis_set_error env)|]|]|];
      cbn [snd emit push_task set_store trace tasks];
      rewrite <- ?app_assoc; cbn [app];
      (eexists; split; [reflexivity|]; cbn; repeat split; lia).
Qed.

(** X11. A request that did not call the origin is answered from the
    cache alone: with any other origin, clock and outcome of the store
    write, the same store and the same outcome of the store read, it
    returns the same response and leaves the same state. *)
Theorem cached_answer_ignores_origin (path : pystr) (page limit : option Z)
    (env env' : Env) (st : State) :
  let out := proxy_request (lit "GET") path page limit env st in
  count is_origin_get (trace (snd out)) = count is_origin_get (trace st) ->
  redis_get_error env' = redis_get_error env ->
  proxy_request (lit "GET") path page limit env' st = out.
Proof.
  cbv zeta.
  assert (C : forall l e, is_origin_get e = true ->
              count is_origin_get (l ++ [e]) = S (count is_origin_get l)).
  { intros l e He. unfold count. rewrite List.filter_app, length_app.
    cbn. rewrite He. cbn. lia. }
  assert (C' : forall l e, is_origin_get e = false ->
              count is_origin_get (l ++ [e]) = count is_origin_get l).
  { intros l e He. unfold count. rewrite List.filter_app, length_app.
    cbn. rewrite He. cbn. lia. }
  intros H Hg. revert H.
  rewrite !proxy_request_get.
  assert (E : cache_lookup (lit "GET") path page limit env' st
              = cache_lookup (lit "GET") path page limit env st).
  { rewrite (cache_lookup_get path page limit env'),
      (cache_lookup_get path page limit env). cbv zeta. now rewrite Hg. }
  rewrite E. rewrite cache_lookup_get. cbv zeta.
  destruct (redis_get_error env) as [eget|] eqn:Hget;
  [|destruct (store st !! _) as [[|c0 cs0]|] eqn:Hkey;
    [|destruct (loads _) as [obj|eload] eqn:Hload;
      [destruct (serve_cached _ _ _) as [served|eserve] eqn:Hserve|]|]];
  try reflexivity;
  (rewrite (fetch_and_store_get path env); cbv zeta;
   destruct (origin env) as [resp|eorigin] eqn:Horigin;
   [destruct (400 <=? status_code resp)%Z eqn:H400;
    [|destruct (utf8_decode (content resp)) as [body|] eqn:Hbody;
      [destruct (redis_set_error env) as [eset|] eqn:Hset|]]
   |destruct eorigin]);
  cbn [snd emit push_task set_store trace];
  rewrite ?C' by reflexivity; rewrite C by reflexivity;
  rewrite ?C' by reflexivity; intros H; lia.
Qed.

Lemma cached_answer_ignores_origin_witness :
  let key := cache_key (lit "GET") news_path in
  let st := state_with key (json_dumps (cache_entry (lit "[7]") noon)) in
  proxy_request (lit "GET") news_path None None
    {| REGISTRY_URL := registry; redis_get_error := None;
       redis_set_error := Some (RedisError (lit "read only"));
       origin := Raise (RequestError (lit "timed out"));
       clock := noon; HTTPStatus := HTTPStatus_phrase |} st
  = proxy_request (lit "GET") news_path None None
      (world (answer 200 (blit "[8]") "application/json")) st.
Proof.
  cbv zeta.
  apply (cached_answer_ignores_origin news_path None None
           (world (answer 200 (blit "[8]") "application/json"))
           {| REGISTRY_URL := registry; redis_get_error := None;
              redis_set_error := Some (RedisError (lit "read only"));
              origin := Raise (RequestError (lit "timed out"));
              clock := noon; HTTPStatus := HTTPStatus_phrase |}
           (state_with (cache_key (lit "GET") news_path)
              (json_dumps (cache_entry (lit "[7]") noon))));
    reflexivity.
Defined.

(** ** The store over time *)

Lemma store_ok_insert (m : gmap pystr pystr) (k s : pystr) (now : timestamp) :
  store_ok m -> Forall (fun c => is_scalar c = true) s ->
  store_ok (<[k := json_dumps (cache_entry s now)]> m).
Proof.
  intros Hm Hs k' v' H. apply lookup_insert_Some in H as [[_ <-]|[_ H]].
  - now exists s, now.
  - now apply Hm with k'.
Qed.

Lemma perform_store_ok (a : action) (env : Env) (st : State) :
  store_ok (store st) -> store_ok (store (perform a env st)).
Proof.
  intros H. destruct a as [path page limit|t]; cbn [perform].
  - destruct (proxy_request_store (lit "GET") path page limit env st)
      as [->|(resp & s & _ & Hd & ->)]; [assumption|].
    apply store_ok_insert; [assumption|].
    now apply utf8_decode_scalar with (content resp).
  - unfold run_task.
    destruct (update_cache_from_origin_store (task_key t) (task_method t)
                (task_path t) (task_page t) (task_limit t) env st)
      as [->|(resp & s & _ & Hd & ->)]; [assumption|].
    apply store_ok_insert; [assumption|].
    now apply utf8_decode_scalar with (content resp).
Qed.

Lemma run_store_ok (steps : list (action * Env)) (st : State) :
  store_ok (store st) -> store_ok (store (run steps st)).
Proof.
  revert st. induction steps as [|[a env] rest IH]; intros st H; [exact H|].
  cbn [run]. apply IH. now apply perform_store_ok.
Qed.

Lemma store_ok_empty : store_ok (store empty_state).
Proof. intros k v H. cbn in H. now rewrite lookup_empty in H. Qed.

(** X12. The program writes nothing but cache entries: if every value
    of the store is the serialisation of an entry, a [dict] with the
    payload as a [str] under [data] and the time under [timestamp], then
    so it is after any sequence of requests and refreshes, whatever the
    origin, the store and the clock do at each of them. *)
Theorem store_holds_entries_only (steps : list (action * Env)) (st : State) :
  store_ok (store st) -> store_ok (store (run steps st)).
Proof. apply run_store_ok. Qed.

Lemma store_holds_entries_only_witness :
  store_ok
    (store (run [(Get news_path None None,
                  world (answer 200 (blit "[]") "application/json"));
                 (Refresh (refresh (lit "k") (lit "GET") news_path None None),
                  world (answer 200 (blit "[1]") "application/json"))]
              empty_state)).
Proof.
  apply (store_holds_entries_only
           [(Get news_path None None,
             world (answer 200 (blit "[]") "application/json"));
            (Refresh (refresh (lit "k") (lit "GET") news_path None None),
             world (answer 200 (blit "[1]") "application/json"))]
           empty_state).
  intros k v H. cbn in H. rewrite lookup_empty in H. discriminate H.
Defined.

(** X13. Starting from the empty store, after any sequence of requests
    and refreshes, a GET whose key is in the store is a hit whenever the
    store answers: a response is returned, the origin is not called, and
    the branch for an entry that cannot be read is never taken. *)
Theorem present_key_is_a_hit (steps : list (action * Env)) (path : pystr)
    (page limit : option Z) (env : Env) :
  let st := run steps empty_state in
  let key := cache_key (lit "GET") path in
  is_Some (store st !! key) -> redis_get_error env = None ->
  let out := proxy_request (lit "GET") path page limit env st in
  (exists b, fst out = Return (Response b (lit "application/json")))
  /\ trace (snd out) = trace st ++ [EvRedisGet key].
Proof.
  intros st key [v Hv] Hg.
  destruct (run_store_ok steps empty_state store_ok_empty key v Hv)
    as (s & now & Hs & ->).
  destruct (utf8_encode_total s Hs) as [b Hb]. cbv zeta.
  rewrite (proxy_request_hit path page limit env st s now b Hv Hs Hb Hg).
  split; [now exists b|reflexivity].
Qed.

Lemma present_key_is_a_hit_witness :
  let steps := [(Get news_path None None,
                 world (answer 200 (blit "[]") "application/json"))] in
  let down := {| REGISTRY_URL := registry; redis_get_error := None;
                 redis_set_error := None;
                 origin := Raise (RequestError (lit "timed out"));
                 clock := noon; HTTPStatus := HTTPStatus_phrase |} in
  exists b,
    fst (proxy_request (lit "GET") news_path None None down
           (run steps empty_state))
    = Return (Response b (lit "application/json")).
Proof.
  cbv zeta.
  refine (proj1 (present_key_is_a_hit
            [(Get news_path None None,
              world (answer 200 (blit "[]") "application/json"))]
            news_path None None
            {| REGISTRY_URL := registry; redis_get_error := None;
               redis_set_error := None;
               origin := Raise (RequestError (lit "timed out"));
               clock := noon; HTTPStatus := HTTPStatus_phrase |} _ _)).
  - exists (json_dumps (cache_entry (lit "[]") noon)). reflexivity.
  - reflexivity.
Defined.

(** ** The endpoints and their cache keys *)

Lemma news_request_path_segments (page limit : Z) (search : option pystr)
    (sort_by order : pystr) :
  news_request_path page limit search sort_by order
  = lit "/api/news?page="
    ++ str_int page ++ lit "&limit=" ++ str_int limit
    ++ lit "&sort_by=" ++ sort_by ++ lit "&order=" ++ order
    ++ filter_segment (lit "search") search ++ [].
Proof.
  unfold news_request_path. cbv zeta. rewrite !add_filter_segment.
  now rewrite <- !app_assoc, app_nil_r.
Qed.

Lemma phones_request_path_segments (page limit : Z) (search : option pystr)
    (sort_by order : pystr) :
  phones_request_path page limit search sort_by order
  = lit "/api/phones?page="
    ++ str_int page ++ lit "&limit=" ++ str_int limit
    ++ lit "&sort_by=" ++ sort_by ++ lit "&order=" ++ order
    ++ filter_segment (lit "search") search ++ [].
Proof.
  unfold phones_request_path. cbv zeta. rewrite !add_filter_segment.
  now rewrite <- !app_assoc, app_nil_r.
Qed.

Lemma rescue_points_request_path_segments (page limit : Z)
    (search : option pystr) (sort_by order : pystr) :
  rescue_points_request_path page limit search sort_by order
  = lit "/api/rescue_points?page="
    ++ str_int page ++ lit "&limit=" ++ str_int limit
    ++ lit "&sort_by=" ++ sort_by ++ lit "&order=" ++ order
    ++ filter_segment (lit "search") search ++ [].
Proof.
  unfold rescue_points_request_path. cbv zeta. rewrite !add_filter_segment.
  now rewrite <- !app_assoc, app_nil_r.
Qed.

(** Two texts that are equal agree on what they begin with. *)
Lemma app_eq_take (n : nat) (a b x y : pystr) :
  (n <= length a)%nat -> (n <= length b)%nat ->
  a ++ x = b ++ y -> take n a = take n b.
Proof.
  intros Ha Hb E. apply (f_equal (take n)) in E.
  now rewrite !take_app_le in E by assumption.
Qed.

Ltac other_endpoint :=
  let E := fresh "E" in
  intros E; unfold cache_key in E; do 2 apply app_inv_head in E;
  apply (app_eq_take 8) in E; [vm_compute in E; discriminate E|cbn; lia|cbn; lia].

(** X14. The four listing endpoints never share a cache entry: the keys
    of [/api/requests], [/api/news], [/api/phones] and
    [/api/rescue_points] are pairwise different, whatever the parameters
    of the calls are. *)
Theorem endpoint_keys_are_disjoint (p1 l1 p2 l2 p3 l3 p4 l4 : Z)
    (status region s1 s2 s3 s4 : option pystr)
    (sb1 o1 sb2 o2 sb3 o3 sb4 o4 : pystr) :
  let requests := cache_key (lit "GET")
                    (requests_path p1 l1 status s1 region sb1 o1) in
  let news := cache_key (lit "GET") (news_request_path p2 l2 s2 sb2 o2) in
  let phones := cache_key (lit "GET") (phones_request_path p3 l3 s3 sb3 o3) in
  let rescue_points :=
    cache_key (lit "GET") (rescue_points_request_path p4 l4 s4 sb4 o4) in
  requests <> news /\ requests <> phones /\ requests <> rescue_points
  /\ news <> phones /\ news <> rescue_points /\ phones <> rescue_points.
Proof.
  cbv zeta.
  rewrite requests_path_segments, news_request_path_segments,
    phones_request_path_segments, rescue_points_request_path_segments.
  repeat split; other_endpoint.
Qed.

(** The parameters of a listing path can be read off it. *)
Lemma listing_path_inj (prefix : pystr) (page limit page' limit' : Z)
    (search search' : option pystr) (sort_by order sort_by' order' : pystr) :
  amp_free sort_by = true -> amp_free order = true ->
  amp_free sort_by' = true -> amp_free order' = true ->
  amp_free_opt search = true -> amp_free_opt search' = true ->
  prefix ++ str_int page ++ lit "&limit=" ++ str_int limit
    ++ lit "&sort_by=" ++ sort_by ++ lit "&order=" ++ order
    ++ filter_segment (lit "search") search ++ []
  = prefix ++ str_int page' ++ lit "&limit=" ++ str_int limit'
    ++ lit "&sort_by=" ++ sort_by' ++ lit "&order=" ++ order'
    ++ filter_segment (lit "search") search' ++ [] ->
  page = page' /\ limit = limit' /\ sort_by = sort_by' /\ order = order'
  /\ present search = present search'.
Proof.
  intros Hs Ho Hs' Ho' H1 H1' E. apply app_inv_head in E.
  apply split_at_amp in E as [Ep E];
    [|apply str_int_amp_free|apply str_int_amp_free|reflexivity|reflexivity].
  apply app_inv_head in E.
  apply split_at_amp in E as [El E];
    [|apply str_int_amp_free|apply str_int_amp_free|reflexivity|reflexivity].
  apply app_inv_head in E.
  apply split_at_amp in E as [Esb E]; [|assumption|assumption|reflexivity..].
  apply app_inv_head in E.
  apply split_at_amp in E as [Eo E];
    [|assumption|assumption|repeat apply filter_segment_amp_tail; exact I..].
  apply filter_segment_inj in E as [E1 _];
    [|assumption|assumption|exact I|exact I|reflexivity|reflexivity].
  repeat split; auto using str_int_inj.
Qed.

(** X15. On [/api/news], [/api/phones] and [/api/rescue_points], two
    calls whose text parameters hold no [&] have the same cache key only
    if they agree on [page], [limit], [sort_by], [order] and the [search]
    filter, where an empty filter counts as a filter left out. *)
Theorem listing_keys_distinguish_queries (page limit page' limit' : Z)
    (search search' : option pystr) (sort_by order sort_by' order' : pystr) :
  amp_free sort_by = true -> amp_free order = true ->
  amp_free sort_by' = true -> amp_free order' = true ->
  amp_free_opt search = true -> amp_free_opt search' = true ->
  let same := page = page' /\ limit = limit' /\ sort_by = sort_by'
              /\ order = order' /\ present search = present search' in
  (cache_key (lit "GET") (news_request_path page limit search sort_by order)
   = cache_key (lit "GET")
       (news_request_path page' limit' search' sort_by' order') -> same)
  /\ (cache_key (lit "GET")
        (phones_request_path page limit search sort_by order)
      = cache_key (lit "GET")
          (phones_request_path page' limit' search' sort_by' order') -> same)
  /\ (cache_key (lit "GET")
        (rescue_points_request_path page limit search sort_by order)
      = cache_key (lit "GET")
          (rescue_points_request_path page' limit' search' sort_by' order')
      -> same).
Proof.
  intros Hs Ho Hs' Ho' H1 H1'. cbv zeta. unfold cache_key.
  rewrite !news_request_path_segments, !phones_request_path_segments,
    !rescue_points_request_path_segments.
  split; [|split]; intros E; do 2 apply app_inv_head in E;
    apply listing_path_inj in E; tauto.
Qed.

Lemma listing_keys_distinguish_queries_witness :
  cache_key (lit "GET")
    (news_request_path 1 10 (Some (lit "flood")) (lit "timestamp") (lit "desc"))
  <> cache_key (lit "GET")
       (news_request_path 1 10 (Some (lit "storm")) (lit "timestamp")
          (lit "desc")).
Proof.
  intros E.
  destruct (listing_keys_distinguish_queries 1 10 1 10
              (Some (lit "flood")) (Some (lit "storm"))
              (lit "timestamp") (lit "desc") (lit "timestamp") (lit "desc"))
    as [H _]; try reflexivity.
  destruct (H E) as (_ & _ & _ & _ & Hp). discriminate Hp.
Defined.

(** ** [validate_safe_chars] *)

Lemma validate_safe_chars_id (v v' : pystr) :
  validate_safe_chars v = Return v' -> v' = v.
Proof.
  unfold validate_safe_chars. destruct v as [|c cs]; [congruence|].
  destruct (forallb _ _); congruence.
Qed.

Lemma validate_safe_chars_forallb (v : pystr) :
  validate_safe_chars v = Return v <-> forallb safe_char v = true.
Proof.
  unfold validate_safe_chars. destruct v as [|c cs]; [easy|].
  destruct (forallb safe_char (c :: cs)); easy.
Qed.

(** X17. [validate_safe_chars] never changes a value, it returns the
    very text or raises; and it judges a text character by character: a
    text made of two parts is taken exactly when both parts are, so
    that safe texts can be joined and cut at will. *)
Theorem validate_safe_chars_by_character (a b : pystr) :
  (forall v, validate_safe_chars a = Return v -> v = a)
  /\ (validate_safe_chars (a ++ b) = Return (a ++ b)
      <-> validate_safe_chars a = Return a
          /\ validate_safe_chars b = Return b).
Proof.
  split; [intros v; apply validate_safe_chars_id|].
  rewrite !validate_safe_chars_forallb, forallb_app. apply andb_true_iff.
Qed.

Lemma validate_safe_chars_by_character_witness :
  validate_safe_chars ([72; 224; 32; 78; 7897; 105] ++ lit ", 2025")
  = Return ([72; 224; 32; 78; 7897; 105] ++ lit ", 2025").
Proof.
  apply (proj2 (validate_safe_chars_by_character [72; 224; 32; 78; 7897; 105]
                  (lit ", 2025"))).
  split; reflexivity.
Defined.

(** ** [list_proxies] *)

Lemma registry_loop_omap (items : list (pystr * pystr)) (acc : list json) :
  registry_loop items acc = acc ++ omap (fun kv => json_loads (snd kv)) items.
Proof.
  revert acc. induction items as [|[url s] rest IH]; intros acc;
    cbn [registry_loop omap list_omap snd]; [now rewrite app_nil_r|].
  unfold loads. destruct (json_loads s) as [v|]; rewrite IH.
  - now rewrite <- app_assoc.
  - reflexivity.
Qed.

(** X18. [list_proxies] never fails: it answers the object with the
    one field [proxies], which lists, in the order of the registry, the
    JSON value of every entry that [json.loads] reads; an entry that it
    cannot read is left out without a trace, a registry that cannot be
    read gives the empty list, and [include_unsafe] changes nothing. *)
Theorem list_proxies_lists_readable_entries
    (registry_data : result (list (pystr * pystr))) (include_unsafe : bool) :
  list_proxies registry_data include_unsafe
  = Return (JObj [(lit "proxies",
                   JArr match registry_data with
                        | Return items =>
                          omap (fun kv => json_loads (snd kv)) items
                        | Raise _ => []
                        end)]).
Proof.
  unfold list_proxies. destruct registry_data as [items|e]; [|reflexivity].
  now rewrite registry_loop_omap.
Qed.

(** ** What the cached branch logs as a parse error *)




(** ** [paginate_data] below page 1 *)

(** X20. [paginate_data] itself knows no invalid page, which is why the
    endpoints validate [page]: with a positive limit, page 0 is empty
    whatever the list holds, and a negative page [-k] does not fail but
    reads from the end of the list: when the list has at least
    [(k + 1) * limit] elements it returns the [limit] elements that
    begin [(k + 1) * limit] before the end. *)
Theorem paginate_data_below_first_page {A : Type} (items : list A)
    (page limit : Z) :
  (1 <= limit)%Z ->
  page_data items 0 limit = []
  /\ ((page < 0)%Z -> ((1 - page) * limit <= Z.of_nat (length items))%Z ->
      page_data items page limit
      = take (Z.to_nat limit)
          (drop (length items - Z.to_nat ((1 - page) * limit)) items)).
Proof.
  intros Hl. unfold page_data, paginate_data. cbv zeta.
  destruct (Z.eqb_spec limit 0) as [E0|E0]; [lia|]. cbn [data].
  unfold py_slice, slice_index. cbv zeta.
  set (n := Z.of_nat (length items)). split.
  - destruct (Z.ltb_spec ((0 - 1) * limit) 0) as [L1|L1]; [|lia].
    destruct (Z.ltb_spec ((0 - 1) * limit + limit) 0) as [L2|L2]; [lia|].
    replace (Z.to_nat _) with 0%nat; [reflexivity|]. lia.
  - intros Hp Hin.
    destruct (Z.ltb_spec ((page - 1) * limit) 0) as [L1|L1]; [|nia].
    destruct (Z.ltb_spec ((page - 1) * limit + limit) 0) as [L2|L2]; [|nia].
    f_equal; [|f_equal]; unfold n in *; nia.
Qed.

Lemma paginate_data_below_first_page_witness :
  page_data [10; 20; 30; 40; 50]%Z 0 2 = []
  /\ page_data [10; 20; 30; 40; 50]%Z (-1) 2 = [20; 30]%Z.
Proof.
  destruct (paginate_data_below_first_page [10; 20; 30; 40; 50]%Z (-1) 2)
    as [H0 H1]; [lia|].
  split; [exact H0|]. rewrite H1 by (cbn; lia). reflexivity.
Defined.

(** ** A hit, its refresh, and the next hit *)

(** X21. Stale while revalidate, end to end: a GET whose key holds an
    entry is answered with the payload of that entry although the origin
    has a newer body, and queues one refresh; once that refresh has run
    against an origin that answers 200 with a body that is valid UTF-8,
    the same GET is answered with the body of the origin. *)
Theorem stale_while_revalidate (path : pystr) (page limit : option Z)
    (env : Env) (st : State) (s : pystr) (now : timestamp) (b : bytes)
    (resp : httpx_Response) (s' : pystr) :
  let key := cache_key (lit "GET") path in
  store st !! key = Some (json_dumps (cache_entry s now)) ->
  utf8_encode s = Some b ->
  redis_get_error env = None -> redis_set_error env = None ->
  origin env = Return resp -> status_code resp = 200%Z ->
  utf8_decode (content resp) = Some s' ->
  let out := proxy_request (lit "GET") path page limit env st in
  fst out = Return (Response b (lit "application/json"))
  /\ exists t,
       tasks (snd out) = tasks st ++ [t]
       /\ fst (proxy_request (lit "GET") path page limit env
                 (snd (run_task t env (snd out))))
          = Return (Response (content resp) (lit "application/json")).
Proof.
  intros key Hk Hb Hg Hset Ho H200 Hd. cbv zeta.
  rewrite (proxy_request_hit path page limit env st s now b Hk
             (utf8_encode_scalar _ _ Hb) Hb Hg).
  split; [reflexivity|]. eexists. split; [reflexivity|].
  unfold run_task, refresh. cbn [task_key task_method task_path task_page
                                   task_limit snd].
  rewrite update_cache_from_origin_get. cbv zeta.
  rewrite Ho, H200, Hd, Hset. cbn [Z.eqb Pos.eqb snd].
  rewrite (proxy_request_hit path page limit env _ s' (clock env)
             (content resp)); [reflexivity| | | |assumption].
  - cbn [store emit set_store push_task]. apply lookup_insert_eq.
  - now apply utf8_decode_scalar with (content resp).
  - now apply utf8_encode_decode.
Qed.

Lemma stale_while_revalidate_witness :
  let key := cache_key (lit "GET") news_path in
  let env := world (answer 200 (blit "[8]") "application/json") in
  let st := state_with key (json_dumps (cache_entry (lit "[7]") noon)) in
  let out := proxy_request (lit "GET") news_path None None env st in
  fst out = Return (Response (blit "[7]") (lit "application/json"))
  /\ exists t,
       tasks (snd out) = tasks st ++ [t]
       /\ fst (proxy_request (lit "GET") news_path None None env
                 (snd (run_task t env (snd out))))
          = Return (Response (blit "[8]") (lit "application/json")).
Proof.
  cbv zeta.
  apply (stale_while_revalidate news_path None None
           (world (answer 200 (blit "[8]") "application/json"))
           (state_with (cache_key (lit "GET") news_path)
              (json_dumps (cache_entry (lit "[7]") noon)))
           (lit "[7]") noon (blit "[7]")
           (answer 200 (blit "[8]") "application/json") (lit "[8]"));
    reflexivity.
Defined.

(** ** What a hit returns, and under which content type *)





